(** * strax plugin protocol: a shallow embedding of [strax/plugin.py]

    The plugin classes of [strax/plugin.py] are translated method by method.
    Python exceptions become the [Raise] branch of a result type, Python
    dictionaries whose iteration order is observed become insertion-ordered
    association lists ([odict]), dictionaries that are only looked up become
    [gmap]s, and the generator [StraxPlugin.iter] becomes a function that
    returns the list of yielded values, the way the generator ended and the
    final contents of the [iters] dictionary it mutates. *)

From stdpp Require Import gmap strings list fin_maps.

Set Warnings "-clear-no-such-hyp".

(** ** Python exceptions and results *)

Inductive exn : Type :=
| AttributeError (attr : string)
| KeyError (key : string)
| IndexError
| ValueError (msg : string)
| NotImplementedError (msg : string).

Inductive res (A : Type) : Type :=
| Ok (a : A)
| Raise (e : exn).
Arguments Ok {A} a.
Arguments Raise {A} e.

#[global] Instance res_ret : MRet res := fun A a => Ok a.

#[global] Instance res_bind : MBind res := fun A B f r =>
  match r with
  | Ok a => f a
  | Raise e => Raise e
  end.

(** [m[key]] on a dictionary that is only looked up. *)
Definition getitem {V : Type} (m : gmap string V) (key : string) : res V :=
  match m !! key with
  | Some v => Ok v
  | None => Raise (KeyError key)
  end.

(** ** Insertion-ordered dictionaries *)

Module OrderedDict.

Abbreviation odict V := (list (string * V)).

Section Ops.
Context {V : Type}.

Fixpoint od_get (k : string) (m : odict V) : option V :=
  match m with
  | [] => None
  | (k', v) :: m' => if decide (k = k') then Some v else od_get k m'
  end.

(** [m[k] = v]: an existing key keeps its position. *)
Fixpoint od_set (k : string) (v : V) (m : odict V) : odict V :=
  match m with
  | [] => [(k, v)]
  | (k', v') :: m' =>
      if decide (k = k') then (k', v) :: m' else (k', v') :: od_set k v m'
  end.

(** [m.setdefault(k, v)], for its effect on [m]. *)
Definition od_setdefault (k : string) (v : V) (m : odict V) : odict V :=
  match od_get k m with
  | Some _ => m
  | None => m ++ [(k, v)]
  end.

(** In-place mutation of the value stored under [k]. *)
Fixpoint od_alter (f : V → V) (k : string) (m : odict V) : odict V :=
  match m with
  | [] => []
  | (k', v) :: m' =>
      if decide (k = k') then (k', f v) :: m' else (k', v) :: od_alter f k m'
  end.

Definition od_keys (m : odict V) : list string := m.*1.
Definition od_values (m : odict V) : list V := m.*2.

(** [m[k]] *)
Definition od_getitem (m : odict V) (k : string) : res V :=
  match od_get k m with
  | Some v => Ok v
  | None => Raise (KeyError k)
  end.
End Ops.

End OrderedDict.

Import OrderedDict.

(** ** Schemas

    A numpy structured dtype is the ordered list of its named, typed
    fields.  [ftype] stands for numpy's scalar types. *)

Section Plugin.

Context {ftype : Type}.

Abbreviation dtype := (list (string * ftype)).

(** [dt.names] *)
Definition names (dt : dtype) : list string := dt.*1.

(** ** Plugin declarations

    [depends_on] and [loop_over] are attributes the source probes with
    [hasattr]; they are optional.  [dependency_kinds] and
    [dependency_dtypes] are the planning dictionaries of the plugin. *)

Record StraxPlugin : Type := {
  depends_on : option (list string);
  dependency_kinds : gmap string string;
  dependency_dtypes : gmap string dtype;
  multiprocess : bool;
  loop_over : option string;
  plugin_dtype : option dtype   (* the [dtype] attribute *)
}.

Definition getattr_depends_on (self : StraxPlugin) : res (list string) :=
  match depends_on self with
  | Some ds => Ok ds
  | None => Raise (AttributeError "depends_on")
  end.

(** ** StraxPlugin.dependencies_by_kind *)

Definition no_time_msg (k : string) : string :=
  "No dependency of data kind " +:+ k +:+ " has time information!".

(** One turn of the [for d in self.depends_on] loop; the state is the pair
    of [deps_by_kind] and [key_deps]. *)
Definition classify_step (self : StraxPlugin) (require_time : bool)
    (d : string) (st : odict (list string) * list string)
    : res (odict (list string) * list string) :=
  let '(deps_by_kind, key_deps) := st in
  k ← getitem (dependency_kinds self) d;
  let deps_by_kind := od_setdefault k [] deps_by_kind in
  if require_time then
    dt ← getitem (dependency_dtypes self) d;
    if bool_decide ("time" ∈ names dt) then
      Ok (od_alter (fun l => d :: l) k deps_by_kind, key_deps ++ [d])
    else
      Ok (od_alter (fun l => l ++ [d]) k deps_by_kind, key_deps)
  else
    Ok (od_alter (fun l => l ++ [d]) k deps_by_kind, key_deps).

Fixpoint classify_loop (self : StraxPlugin) (require_time : bool)
    (ds : list string) (st : odict (list string) * list string)
    : res (odict (list string) * list string) :=
  match ds with
  | [] => Ok st
  | d :: ds' =>
      st' ← classify_step self require_time d st;
      classify_loop self require_time ds' st'
  end.

(** The [for k, d in deps_by_kind.items()] check. *)
Fixpoint check_time (key_deps : list string) (m : odict (list string))
    : res unit :=
  match m with
  | [] => Ok tt
  | (k, d) :: m' =>
      match d with
      | [] => Raise IndexError
      | d0 :: _ =>
          if bool_decide (d0 ∈ key_deps) then check_time key_deps m'
          else Raise (ValueError (no_time_msg k))
      end
  end.

Definition dependencies_by_kind (self : StraxPlugin) (require_time : bool)
    : res (odict (list string)) :=
  ds ← getattr_depends_on self;
  st ← classify_loop self require_time ds ([], []);
  let '(deps_by_kind, key_deps) := st in
  if require_time then
    _ ← check_time key_deps deps_by_kind;
    Ok deps_by_kind
  else Ok deps_by_kind.

(** ** StraxPlugin.iter

    An iterator over chunks is modelled by the finite sequence of chunks it
    still has to deliver; [next] removes the first one and raises
    [StopIteration] on the empty sequence.  The caller's [iters] dictionary
    is a shared mutable object: it is threaded through as the state.  The
    chunk-alignment primitives of [strax.chunk_arrays] are external and
    enter as parameters. *)

Context {chunk R handle : Type}.

Abbreviation iterator := (list chunk).
Abbreviation store := (gmap string (list chunk)).

(** The first argument of [ca.sync_iters]. *)
Inductive sync_fn : Type :=
| same_stop_endtime   (* partial(ca.same_stop, func=strax.endtime) *)
| same_length.        (* ca.same_length *)

Variable fixed_length_chunks : iterator → Z → iterator.
Variable sync_iters : sync_fn → odict iterator → odict iterator.

(** [executor.submit(self.compute, **compute_kwargs)] *)
Record Executor : Type := {
  submit : (odict chunk → res R) → odict chunk → handle
}.

(** State-and-exception monad over the [iters] dictionary. *)
Definition M (A : Type) : Type := store → res A * store.

#[local] Instance M_ret : MRet M := fun A a iters => (Ok a, iters).

#[local] Instance M_bind : MBind M := fun A B f m iters =>
  match m iters with
  | (Ok a, iters') => f a iters'
  | (Raise e, iters') => (Raise e, iters')
  end.

Definition lift {A : Type} (r : res A) : M A := fun iters => (r, iters).

(** [iters[d]] *)
Definition iters_getitem (d : string) : M iterator :=
  fun iters => (getitem iters d, iters).

(** [iters[d] = it] *)
Definition iters_setitem (d : string) (it : iterator) : M unit :=
  fun iters => (Ok tt, <[d := it]> iters).

(** [iters.update(new)] *)
Definition iters_update (new : odict iterator) : M unit :=
  fun iters => (Ok tt, foldl (fun acc kv => <[kv.1 := kv.2]> acc) iters new).

(** [deps[0]] *)
Definition first_of (deps : list string) : res string :=
  match deps with
  | d :: _ => Ok d
  | [] => Raise IndexError
  end.

(** Lines 99-104: additional flow control on the first kind's first
    dependency; the [break] leaves the loop after one turn. *)
Definition flow_control (deps_by_kind : odict (list string))
    (n_per_iter : option Z) : M unit :=
  match n_per_iter with
  | None => mret tt
  | Some n =>
      match deps_by_kind with
      | [] => mret tt
      | (kind, deps) :: _ =>
          d ← lift (first_of deps);
          it ← iters_getitem d;
          iters_setitem d (fixed_length_chunks it n)
      end
  end.

(** [{d[0]: iters[d[0]] for d in deps_by_kind.values()}] *)
Fixpoint key_iters (groups : list (list string)) (acc : odict iterator)
    : M (odict iterator) :=
  match groups with
  | [] => mret acc
  | d :: groups' =>
      d0 ← lift (first_of d);
      it ← iters_getitem d0;
      key_iters groups' (od_set d0 it acc)
  end.

(** [{d: iters[d] for d in deps}] *)
Fixpoint dep_iters (deps : list string) (acc : odict iterator)
    : M (odict iterator) :=
  match deps with
  | [] => mret acc
  | d :: deps' =>
      it ← iters_getitem d;
      dep_iters deps' (od_set d it acc)
  end.

(** Lines 106-112. *)
Definition sync_kinds (deps_by_kind : odict (list string)) : M unit :=
  if bool_decide (1 < length deps_by_kind) then
    sel ← key_iters (od_values deps_by_kind) [];
    iters_update (sync_iters same_stop_endtime sel)
  else mret tt.

(** Lines 115-119. *)
Fixpoint sync_lengths (groups : list (list string)) : M unit :=
  match groups with
  | [] => mret tt
  | deps :: groups' =>
      _ ← (if bool_decide (1 < length deps) then
             sel ← dep_iters deps [];
             iters_update (sync_iters same_length sel)
           else mret tt);
      sync_lengths groups'
  end.

(** What one evaluation of
    [{d: next(iters[d]) for d in self.depends_on}] amounts to. *)
Inductive pulled : Type :=
| Batch (compute_kwargs : odict chunk)
| StopIteration
| Failed (e : exn).

Fixpoint next_batch (ds : list string) (acc : odict chunk) (iters : store)
    : pulled * store :=
  match ds with
  | [] => (Batch acc, iters)
  | d :: ds' =>
      match iters !! d with
      | None => (Failed (KeyError d), iters)
      | Some [] => (StopIteration, iters)
      | Some (c :: rest) => next_batch ds' (od_set d c acc) (<[d := rest]> iters)
      end
  end.

(** How a drained generator ended. *)
Inductive ending : Type :=
| Returned
| Raised (e : exn)
| OutOfFuel.

Record run : Type := {
  yielded : list (R + handle);
  ended : ending;
  final_iters : store
}.

Definition yield (x : R + handle) (r : run) : run :=
  {| yielded := x :: yielded r; ended := ended r;
     final_iters := final_iters r |}.

(** Lines 121-130: the [while True] loop, drained by its consumer. *)
Fixpoint pull_loop (self : StraxPlugin) (compute : odict chunk → res R)
    (executor : option Executor) (ds : list string) (fuel : nat)
    (iters : store) : run :=
  match fuel with
  | O => {| yielded := []; ended := OutOfFuel; final_iters := iters |}
  | S fuel' =>
      match next_batch ds [] iters with
      | (StopIteration, iters') =>
          {| yielded := []; ended := Returned; final_iters := iters' |}
      | (Failed e, iters') =>
          {| yielded := []; ended := Raised e; final_iters := iters' |}
      | (Batch compute_kwargs, iters') =>
          match multiprocess self, executor with
          | true, Some ex =>
              yield (inr (submit ex compute compute_kwargs))
                    (pull_loop self compute executor ds fuel' iters')
          | _, _ =>
              match compute compute_kwargs with
              | Ok r =>
                  yield (inl r)
                        (pull_loop self compute executor ds fuel' iters')
              | Raise e =>
                  {| yielded := []; ended := Raised e; final_iters := iters' |}
              end
          end
      end
  end.

(** Lines 97-119: everything before the loop. *)
Definition prepare (self : StraxPlugin) (n_per_iter : option Z)
    : M (list string) :=
  deps_by_kind ← lift (dependencies_by_kind self true);
  _ ← flow_control deps_by_kind n_per_iter;
  _ ← sync_kinds deps_by_kind;
  _ ← sync_lengths (od_values deps_by_kind);
  lift (getattr_depends_on self).

Definition iter (self : StraxPlugin) (compute : odict chunk → res R)
    (iters : store) (n_per_iter : option Z) (executor : option Executor)
    (fuel : nat) : run :=
  match prepare self n_per_iter iters with
  | (Raise e, iters') =>
      {| yielded := []; ended := Raised e; final_iters := iters' |}
  | (Ok ds, iters') => pull_loop self compute executor ds fuel iters'
  end.

(** [StraxPlugin.compute] *)
Definition StraxPlugin_compute (kwargs : odict chunk) : res R :=
  Raise (NotImplementedError EmptyString).

(** ** Structured arrays

    A record holds one value per field of its dtype, in field order; a
    structured array is a sequence of records.  [V] stands for the values
    numpy stores, [zero ty] for the value [np.zeros] puts in a field of
    type [ty], and [coerce ty v] for numpy's conversion of [v] on
    assignment to a field of type [ty]. *)

Context {V : Type}.

Abbreviation record := (odict V).
Abbreviation array := (list (odict V)).

Variable zero : ftype → V.
Variable coerce : ftype → V → res V.

(** [strax.merge_arrs] and [strax.split_by_containment] are external. *)
Variable merge_arrs : list array → array.
Variable split_by_containment : array → array → list array.

(** [repr] of a Python string is the interpreter's. *)
Variable py_repr : string → string.

(** [strax.unpack_dtype] is not part of the source at hand: it turns a
    dtype into a list of (name, type) pairs. *)
Variable unpack_dtype : dtype → list (string * ftype).

(** [np.zeros(n, dtype=dt)] *)
Definition zero_record (dt : dtype) : record :=
  (fun f => (f.1, zero f.2)) <$> dt.

Definition np_zeros (n : nat) (dt : dtype) : array :=
  replicate n (zero_record dt).

(** [a[i]] for [0 <= i] *)
Definition index {A : Type} (a : list A) (i : nat) : res A :=
  match a !! i with
  | Some x => Ok x
  | None => Raise IndexError
  end.

(** [results[i][k] = v] *)
Definition setfield (dt : dtype) (i : nat) (k : string) (v : V)
    (results : array) : res array :=
  row ← index results i;
  match od_get k dt with
  | None => Raise (ValueError ("no field of name " +:+ k))
  | Some ty =>
      v' ← coerce ty v;
      Ok (<[i := od_set k v' row]> results)
  end.

Definition getattr_dtype (self : StraxPlugin) : res dtype :=
  match plugin_dtype self with
  | Some dt => Ok dt
  | None => Raise (AttributeError "dtype")
  end.

(** ** LoopPlugin *)

Definition LoopPlugin_init (self : StraxPlugin) : res unit :=
  match depends_on self with
  | None => Raise (ValueError "depends_on is mandatory for LoopPlugin")
  | Some _ => Ok tt
  end.

(** [[kwargs[d] for d in deps]] *)
Fixpoint kwargs_of {A : Type} (kwargs : odict A) (deps : list string)
    : res (list A) :=
  match deps with
  | [] => Ok []
  | d :: deps' =>
      a ← od_getitem kwargs d;
      rest ← kwargs_of kwargs deps';
      Ok (a :: rest)
  end.

(** [{k: strax.merge_arrs([kwargs[d] for d in deps])
      for k, deps in deps_by_kind.items()}] *)
Fixpoint merge_kinds (kwargs : odict array)
    (deps_by_kind : odict (list string)) (acc : odict array)
    : res (odict array) :=
  match deps_by_kind with
  | [] => Ok acc
  | (k, deps) :: rest =>
      arrs ← kwargs_of kwargs deps;
      merge_kinds kwargs rest (od_set k (merge_arrs arrs) acc)
  end.

(** Lines 169-171: every kind but the loop kind is replaced by its
    partition against [base]; the entries keep their order. *)
Definition split_kinds (loop_over : string) (base : array)
    (things_by_kind : odict array) : odict (list array) :=
  omap (fun kt : string * array =>
          if decide (kt.1 ≠ loop_over)
          then Some (kt.1, split_by_containment kt.2 base)
          else None) things_by_kind.

(** [{k: things_by_kind[k][i] for k in deps_by_kind if k != loop_over}] *)
Fixpoint row_kwargs (loop_over : string) (split : odict (list array))
    (i : nat) (kinds : list string) (acc : odict array)
    : res (odict array) :=
  match kinds with
  | [] => Ok acc
  | k :: kinds' =>
      if decide (k ≠ loop_over) then
        parts ← od_getitem split k;
        part ← index parts i;
        row_kwargs loop_over split i kinds' (od_set k part acc)
      else row_kwargs loop_over split i kinds' acc
  end.

(** [for k, v in r.items(): results[i][k] = v] *)
Fixpoint write_row (dt : dtype) (i : nat) (r : odict V) (results : array)
    : res array :=
  match r with
  | [] => Ok results
  | (k, v) :: r' =>
      results' ← setfield dt i k v results;
      write_row dt i r' results'
  end.

(** Lines 174-182, for the indices [idx] still to visit. *)
Fixpoint fill_rows (compute_loop : record → odict array → res (odict V))
    (dt : dtype) (loop_over : string) (base : array)
    (split : odict (list array)) (kinds : list string)
    (idx : list nat) (results : array) : res array :=
  match idx with
  | [] => Ok results
  | i :: idx' =>
      b ← index base i;
      sub ← row_kwargs loop_over split i kinds [];
      r ← compute_loop b sub;
      results' ← write_row dt i r results;
      fill_rows compute_loop dt loop_over base split kinds idx' results'
  end.

(** Lines 154-157: the data kind to loop over. *)
Definition loop_kind (self : StraxPlugin) : res string :=
  match loop_over self with
  | Some k => Ok k
  | None =>
      ds ← getattr_depends_on self;
      d0 ← first_of ds;
      getitem (dependency_kinds self) d0
  end.

Definition LoopPlugin_compute (self : StraxPlugin)
    (compute_loop : record → odict array → res (odict V))
    (kwargs : odict array) : res array :=
  loop_over ← loop_kind self;
  deps_by_kind ← dependencies_by_kind self true;
  things_by_kind ← merge_kinds kwargs deps_by_kind [];
  base ← od_getitem things_by_kind loop_over;
  let split := split_kinds loop_over base things_by_kind in
  dt ← getattr_dtype self;
  let results := np_zeros (length base) dt in
  fill_rows compute_loop dt loop_over base split (od_keys deps_by_kind)
            (seq 0 (length base)) results.

(** [LoopPlugin.compute_loop] *)
Definition LoopPlugin_compute_loop (base : record) (kwargs : odict array)
    : res (odict V) :=
  Raise (ValueError EmptyString).

(** ** MergePlugin *)

Definition MergePlugin_init (self : StraxPlugin) : res unit :=
  match depends_on self with
  | None => Raise (ValueError "depends_on is mandatory for MergePlugin")
  | Some _ => Ok tt
  end.

(** [str] of a list of strings and of a dictionary from strings to such
    lists, built from [repr] of the strings. *)
Fixpoint join (sep : string) (l : list string) : string :=
  match l with
  | [] => EmptyString
  | [x] => x
  | x :: l' => x +:+ sep +:+ join sep l'
  end.

Definition str_list (l : list string) : string :=
  "[" +:+ join ", " (py_repr <$> l) +:+ "]".

Definition str_dict (m : odict (list string)) : string :=
  "{" +:+ join ", " ((fun kv => py_repr kv.1 +:+ ": " +:+ str_list kv.2) <$> m)
      +:+ "}".

Definition multiple_kinds_text : string :=
  "MergePlugins can only merge data of the same kind, but got multiple kinds: ".

Definition multiple_kinds_msg (deps_by_kind : odict (list string)) : string :=
  multiple_kinds_text +:+ str_dict deps_by_kind.

(** [[strax.unpack_dtype(self.dependency_dtypes[d])
      for d in self.depends_on]] *)
Fixpoint unpacked (self : StraxPlugin) (ds : list string)
    : res (list (list (string * ftype))) :=
  match ds with
  | [] => Ok []
  | d :: ds' =>
      dt ← getitem (dependency_dtypes self) d;
      rest ← unpacked self ds';
      Ok (unpack_dtype dt :: rest)
  end.

(** [sum(ls, [])] *)
Definition py_sum {A : Type} (ls : list (list A)) : list A :=
  foldl (fun acc l => acc ++ l) [] ls.

Definition MergePlugin_infer_dtype (self : StraxPlugin)
    : res (list (string * ftype)) :=
  deps_by_kind ← dependencies_by_kind self true;
  if bool_decide (length deps_by_kind ≠ 1) then
    Raise (ValueError (multiple_kinds_msg deps_by_kind))
  else
    ds ← getattr_depends_on self;
    ls ← unpacked self ds;
    Ok (py_sum ls).

Definition MergePlugin_compute (kwargs : odict array) : res array :=
  Ok (merge_arrs (od_values kwargs)).

End Plugin.

(** ** Specification vocabulary for the classifier *)

Section ClassifierSpec.

Context {ftype : Type}.
Variable self : @StraxPlugin ftype.

(** [d] is declared with data kind [k]. *)
Definition kind_is (k d : string) : bool :=
  bool_decide (dependency_kinds self !! d = Some k).

(** The schema of [d] has a field named time. *)
Definition time_bearing (d : string) : bool :=
  match dependency_dtypes self !! d with
  | Some dt => bool_decide ("time" ∈ names dt)
  | None => false
  end.

(** Both planning dictionaries know every declared dependency. *)
Definition resolved (ds : list string) : Prop :=
  Forall (λ d, is_Some (dependency_kinds self !! d) ∧
               is_Some (dependency_dtypes self !! d)) ds.

(** The dependencies of kind [k], in declaration order. *)
Definition deps_of_kind (k : string) (ds : list string) : list string :=
  filter (λ d, kind_is k d) ds.

Definition timed (ds : list string) : list string :=
  filter (λ d, time_bearing d) ds.

Definition untimed (ds : list string) : list string :=
  filter (λ d, ¬ time_bearing d) ds.

(** Distinct elements in order of first appearance. *)
Fixpoint nub (l : list string) : list string :=
  match l with
  | [] => []
  | x :: l' => x :: filter (λ y, y ≠ x) (nub l')
  end.

(** The kinds of the dependencies, each once, in order of first
    appearance. *)
Definition kinds_in_order (ds : list string) : list string :=
  nub (omap (λ d, dependency_kinds self !! d) ds).

(** Time-bearing dependencies of the kind, latest first, then the others
    in declaration order. *)
Definition bucket_of (ds : list string) (k : string) : list string :=
  reverse (timed (deps_of_kind k ds)) ++ untimed (deps_of_kind k ds).

Definition buckets (ds : list string) : odict (list string) :=
  (λ k, (k, bucket_of ds k)) <$> kinds_in_order ds.

(** The kind has no time-bearing dependency. *)
Definition lacks_time (ds : list string) (k : string) : Prop :=
  timed (deps_of_kind k ds) = [].

#[global] Instance lacks_time_dec ds k : Decision (lacks_time ds k).
Proof. unfold lacks_time. apply _. Defined.

(** The first kind, in order of first appearance, without a time-bearing
    dependency. *)
Definition first_lacking (ds : list string) : option string :=
  head (filter (lacks_time ds) (kinds_in_order ds)).

(** Every kind among the dependencies has a time-bearing dependency. *)
Definition every_kind_timed (ds : list string) : Prop :=
  Forall (λ k, ¬ lacks_time ds k) (kinds_in_order ds).

End ClassifierSpec.

(** ** Specification vocabulary for the streaming loop *)

Section ExecutorSpec.

Context {ftype chunk R handle : Type}.

(** The batch made of the [i]-th chunk of every dependency, in declared
    order; [None] if some dependency has no [i]-th chunk. *)
Fixpoint batch_at (ds : list string) (iters : gmap string (list chunk))
    (i : nat) : option (odict chunk) :=
  match ds with
  | [] => Some []
  | d :: ds' =>
      its ← iters !! d;
      c ← its !! i;
      b ← batch_at ds' iters i;
      Some ((d, c) :: b)
  end.

(** The first [n] batches. *)
Definition batches (ds : list string) (iters : gmap string (list chunk))
    (n : nat) : list (odict chunk) :=
  omap (batch_at ds iters) (seq 0 n).

(** What lines 127-130 yield for one batch. *)
Definition emit (self : @StraxPlugin ftype) (compute : odict chunk → res R)
    (executor : option (@Executor chunk R handle))
    (compute_kwargs : odict chunk) : res (R + handle) :=
  match multiprocess self, executor with
  | true, Some ex => Ok (inr (submit ex compute compute_kwargs))
  | _, _ =>
      match compute compute_kwargs with
      | Ok r => Ok (inl r)
      | Raise e => Raise e
      end
  end.

(** Outputs for a sequence of batches followed by exhaustion: one per
    batch, in order, up to the first batch on which [compute] raises. *)
Fixpoint emit_all (f : odict chunk → res (R + handle))
    (bs : list (odict chunk)) : list (R + handle) * ending :=
  match bs with
  | [] => ([], Returned)
  | b :: bs' =>
      match f b with
      | Ok x => let '(xs, e) := emit_all f bs' in (x :: xs, e)
      | Raise e => ([], Raised e)
      end
  end.

End ExecutorSpec.

(** ** Specification vocabulary for the row loop *)

Section LoopSpec.

Context {ftype V : Type}.
Variable coerce : ftype → V → res V.

(** An item of a callback's mapping can be stored in a record of dtype
    [dt]: its key is a field of [dt] and its value converts to the
    field's type. *)
Definition storable (dt : list (string * ftype)) (kv : string * V) : Prop :=
  ∃ ty v', od_get kv.1 dt = Some ty ∧ coerce ty kv.2 = Ok v'.

(** The callback returns, for row [b] and the keyword arguments [sub], a
    dictionary all of whose items can be stored. *)
Definition callback_fills (dt : list (string * ftype))
    (compute_loop : odict V → odict (list (odict V)) → res (odict V))
    (b : odict V) (sub : odict (list (odict V))) : Prop :=
  ∃ r, compute_loop b sub = Ok r ∧ NoDup r.*1 ∧ Forall (storable dt) r.

End LoopSpec.

(** ** Example plugins

    Declarations in the style of the strax peak and event plugins, with
    numpy type strings as field types, and simple stand-ins for the
    external primitives. *)

Module Examples.

Definition plugin (deps : option (list string))
    (kinds : list (string * string))
    (dtypes : list (string * list (string * string)))
    (out : option (list (string * string))) : @StraxPlugin string :=
  {| depends_on := deps;
     dependency_kinds := list_to_map kinds;
     dependency_dtypes := list_to_map dtypes;
     multiprocess := false;
     loop_over := None;
     plugin_dtype := out |}.

Definition peak_basics_dtype : list (string * string) :=
  [("time", "<i8"); ("area", "<f4")].
Definition peak_classification_dtype : list (string * string) :=
  [("type", "<i1")].
Definition peak_positions_dtype : list (string * string) :=
  [("x", "<f4"); ("y", "<f4")].
Definition hit_info_dtype : list (string * string) :=
  [("channel", "<i2")].
Definition event_basics_dtype : list (string * string) :=
  [("time", "<i8"); ("endtime", "<i8")].

(** Two kinds, of which hits has no time field at all. *)
Definition peaks_and_untimed_hits : @StraxPlugin string :=
  plugin (Some ["peak_basics"; "hit_info"])
         [("peak_basics", "peaks"); ("hit_info", "hits")]
         [("peak_basics", peak_basics_dtype); ("hit_info", hit_info_dtype)]
         None.

(** Two kinds, neither with a time field. *)
Definition untimed_peaks_and_hits : @StraxPlugin string :=
  plugin (Some ["peak_classification"; "hit_info"])
         [("peak_classification", "peaks"); ("hit_info", "hits")]
         [("peak_classification", peak_classification_dtype);
          ("hit_info", hit_info_dtype)]
         None.

(** One kind; only the second dependency carries time. *)
Definition peak_info : @StraxPlugin string :=
  plugin (Some ["peak_classification"; "peak_basics"; "peak_positions"])
         [("peak_classification", "peaks"); ("peak_basics", "peaks");
          ("peak_positions", "peaks")]
         [("peak_classification", peak_classification_dtype);
          ("peak_basics", peak_basics_dtype);
          ("peak_positions", peak_positions_dtype)]
         None.

(** One kind; the first and the last dependency carry time. *)
Definition peak_summary : @StraxPlugin string :=
  plugin (Some ["peak_basics"; "peak_classification"; "peaks"])
         [("peak_basics", "peaks"); ("peak_classification", "peaks");
          ("peaks", "peaks")]
         [("peak_basics", peak_basics_dtype);
          ("peak_classification", peak_classification_dtype);
          ("peaks", peak_basics_dtype)]
         None.

(** A merge of two dependencies of one kind. *)
Definition classified_peaks : @StraxPlugin string :=
  plugin (Some ["peak_basics"; "peak_classification"])
         [("peak_basics", "peaks"); ("peak_classification", "peaks")]
         [("peak_basics", peak_basics_dtype);
          ("peak_classification", peak_classification_dtype)]
         None.

(** Two kinds, each with time. *)
Definition event_info : @StraxPlugin string :=
  plugin (Some ["event_basics"; "peak_basics"])
         [("event_basics", "events"); ("peak_basics", "peaks")]
         [("event_basics", event_basics_dtype);
          ("peak_basics", peak_basics_dtype)]
         (Some [("n_peaks", "<i4"); ("area_sum", "<f4")]).

(** The same merge, marked for execution off the plugin's thread. *)
Definition classified_peaks_off_thread : @StraxPlugin string :=
  {| depends_on := depends_on classified_peaks;
     dependency_kinds := dependency_kinds classified_peaks;
     dependency_dtypes := dependency_dtypes classified_peaks;
     multiprocess := true;
     loop_over := None;
     plugin_dtype := None |}.

(** A declaration that lists no dependency. *)
Definition no_dependencies : @StraxPlugin string :=
  plugin (Some []) [] [] None.

(** Chunks of row numbers. *)
Definition peak_iters : gmap string (list (list nat)) :=
  list_to_map [("peak_basics", [[1; 2]; [3]; [4; 5]]);
               ("peak_classification", [[1; 2]; [3]])].

(** Stand-ins: rechunking into pieces of [n] rows, synchronisation that
    hands the iterators back, a computation that counts the rows of its
    batch, and an executor whose handle is the submitted batch. *)
Definition ex_fixed_length_chunks (it : list (list nat)) (n : Z)
    : list (list nat) :=
  let rows := concat it in
  let n := Z.to_nat n in
  reshape (replicate (length rows `div` n) n ++ [length rows `mod` n]) rows.

Definition ex_sync_iters (f : sync_fn) (sel : odict (list (list nat)))
    : odict (list (list nat)) := sel.

Definition ex_compute (kwargs : odict (list nat)) : res nat :=
  Ok (sum_list (length <$> od_values kwargs)).

Definition ex_executor : @Executor (list nat) nat (odict (list nat)) :=
  {| submit := λ f kwargs, kwargs |}.

(** Records with integer values: two events and three peaks. *)
Definition interval (t e : Z) : odict Z := [("time", t); ("endtime", e)].

Definition ex_events : list (odict Z) := [interval 0 100; interval 200 300].
Definition ex_peaks : list (odict Z) :=
  [interval 10 11; interval 50 51; interval 250 251].

Definition ex_kwargs : odict (list (odict Z)) :=
  [("event_basics", ex_events); ("peak_basics", ex_peaks)].

Definition field (f : string) (r : odict Z) : Z := default 0%Z (od_get f r).

Definition ex_merge_arrs (arrs : list (list (odict Z))) : list (odict Z) :=
  default [] (head arrs).

Definition ex_split_by_containment (things base : list (odict Z))
    : list (list (odict Z)) :=
  (λ b, filter (λ r, (field "time" b ≤ field "time" r)%Z ∧
                     (field "endtime" r ≤ field "endtime" b)%Z) things)
    <$> base.

(** A callback that counts the peaks of the event. *)
Definition count_peaks (base : odict Z) (kwargs : odict (list (odict Z)))
    : res (odict Z) :=
  Ok [("n_peaks", Z.of_nat (length (default [] (od_get "peaks" kwargs))))].

(** A callback that needs the peaks of the event among its keywords. *)
Definition count_given_peaks (base : odict Z)
    (kwargs : odict (list (odict Z))) : res (odict Z) :=
  peaks ← od_getitem kwargs "peaks";
  Ok [("n_peaks", Z.of_nat (length peaks))].

(** The [compute] of the LoopPlugin [event_info] with that callback. *)
Definition event_info_compute
    : odict (list (odict Z)) → res (list (odict Z)) :=
  LoopPlugin_compute (λ _, 0%Z) (λ _ v, Ok v) ex_merge_arrs
                     ex_split_by_containment event_info count_given_peaks.

(** One chunk of events and one of peaks, and stand-ins that hand such
    iterators back. *)
Definition event_iters : gmap string (list (list (odict Z))) :=
  list_to_map [("event_basics", [ex_events]); ("peak_basics", [ex_peaks])].

Definition ex_rechunk_arrays (it : list (list (odict Z))) (n : Z)
    : list (list (odict Z)) := it.

Definition ex_sync_iters_arrays (f : sync_fn)
    (sel : odict (list (list (odict Z)))) : odict (list (list (odict Z))) :=
  sel.

(** One kind and no time field: the fields a and b, then the field c. *)
Definition ab_then_c : @StraxPlugin string :=
  plugin (Some ["ab"; "c"]) [("ab", "things"); ("c", "things")]
         [("ab", [("a", "<f4"); ("b", "<f4")]); ("c", [("c", "<i4")])]
         None.

(** The same with a time field in place of a. *)
Definition tb_then_c : @StraxPlugin string :=
  plugin (Some ["tb"; "c"]) [("tb", "things"); ("c", "things")]
         [("tb", [("time", "<i8"); ("b", "<f4")]); ("c", [("c", "<i4")])]
         None.

Definition ex_repr (s : string) : string := "'" +:+ s +:+ "'".

(** Modelled from the spec: [strax.unpack_dtype] is not part of the source
    at hand; the spec calls its result the dependency's unpacked field
    list, here the (name, type) pairs of the dtype in field order. *)
Definition ex_unpack_dtype (dt : list (string * string))
    : list (string * string) := dt.

End Examples.

(** ** PlaceholderPlugin

    [depends_on = tuple()]; [compute(self)] takes no keyword argument, so
    it is the call [iter] makes for an empty batch. *)

Definition PlaceholderPlugin_compute {R : Type} (provides : string) : res R :=
  Raise (NotImplementedError
           ("No plugin registered that provides " +:+ provides)).

(** ** Further specification vocabulary *)

Section MoreSpec.

Context {ftype chunk : Type}.
Variable self : @StraxPlugin ftype.

(** The groups of the classifier when time is not required: the
    dependencies of each kind in declaration order. *)
Definition plain_groups (ds : list string) : odict (list string) :=
  (λ k, (k, deps_of_kind self k ds)) <$> kinds_in_order self ds.

(** The iterators after a pull that took one chunk from each of [pre]. *)
Definition advanced (pre : list string) (iters iters' : gmap string (list chunk))
    : Prop :=
  ∀ x, iters' !! x = if decide (x ∈ pre) then tail <$> iters !! x
                     else iters !! x.

(** A step of [iter] changes the iterators of [names] at most. *)
Definition touches_only (names : list string) {A : Type} (m : @M chunk A)
    : Prop :=
  ∀ iters r iters', m iters = (r, iters') →
    ∀ x, x ∉ names → iters' !! x = iters !! x.

(** Which alignment function a classification makes [iter] call. *)
Definition calls (deps_by_kind : odict (list string)) (f : sync_fn) : Prop :=
  match f with
  | same_stop_endtime => 1 < length deps_by_kind
  | same_length => Exists (λ deps, 1 < length deps) (od_values deps_by_kind)
  end.

End MoreSpec.

(** ** Further example plugins *)

Module MoreExamples.

Import Examples.

(** A dependency whose kind is not registered. *)
Definition unregistered_hits : @StraxPlugin string :=
  plugin (Some ["peak_basics"; "hit_info"; "peak_classification"])
         [("peak_basics", "peaks"); ("peak_classification", "peaks")]
         [("peak_basics", peak_basics_dtype);
          ("peak_classification", peak_classification_dtype)]
         None.

(** Peaks without a time field around events with one. *)
Definition mixed_kinds : @StraxPlugin string :=
  plugin (Some ["peak_classification"; "event_basics"; "peak_positions"])
         [("peak_classification", "peaks"); ("event_basics", "events");
          ("peak_positions", "peaks")]
         [] None.

(** A single dependency. *)
Definition peak_counts : @StraxPlugin string :=
  plugin (Some ["peak_basics"]) [("peak_basics", "peaks")]
         [("peak_basics", peak_basics_dtype)] None.

(** The placeholder for records. *)
Definition records_placeholder : @StraxPlugin string :=
  plugin (Some []) [] [] (Some [("time", "<i8"); ("channel", "<i2")]).

(** A loop over a kind that no dependency has. *)
Definition event_info_over_hits : @StraxPlugin string :=
  {| depends_on := depends_on event_info;
     dependency_kinds := dependency_kinds event_info;
     dependency_dtypes := dependency_dtypes event_info;
     multiprocess := false;
     loop_over := Some "hits";
     plugin_dtype := plugin_dtype event_info |}.

(** Iterators with a bystander that is no dependency of the plugins. *)
Definition more_iters : gmap string (list (list nat)) :=
  list_to_map [("peak_basics", [[1; 2]; [3]; [4; 5]]);
               ("peak_classification", [[1; 2]]);
               ("bystander", [[7]])].

(** A computation that fails on batches of more than four rows. *)
Definition small_batches_only (kwargs : odict (list nat)) : res nat :=
  let n := sum_list (length <$> od_values kwargs) in
  if bool_decide (n ≤ 4) then Ok n else Raise (ValueError "too many rows").

(** A synchronisation stand-in that drops every chunk. *)
Definition ex_sync_drop (f : sync_fn) (sel : odict (list (list nat)))
    : odict (list (list nat)) := (λ kv, (kv.1, [])) <$> sel.

(** A synchronisation stand-in that only aligns by length. *)
Definition ex_sync_lengths_only (f : sync_fn) (sel : odict (list (list nat)))
    : odict (list (list nat)) :=
  match f with
  | same_length => sel
  | same_stop_endtime => ex_sync_drop f sel
  end.

(** Iterators of which the second is exhausted, and iterators that lack
    the second dependency. *)
Definition exhausted_iters : gmap string (list (list nat)) :=
  list_to_map [("peak_basics", [[4; 5]]); ("peak_classification", [])].

Definition missing_iters : gmap string (list (list nat)) :=
  list_to_map [("peak_basics", [[4; 5]])].

(** Iterators whose second batch has six rows. *)
Definition growing_iters : gmap string (list (list nat)) :=
  list_to_map [("peak_basics", [[1; 2]; [3; 4; 5]; [6]]);
               ("peak_classification", [[1; 2]; [3; 4; 5]])].

(** Keyword arguments with no event, and iterators over arrays. *)
Definition ex_kwargs_no_events : odict (list (odict Z)) :=
  [("event_basics", []); ("peak_basics", ex_peaks)].

Definition array_iters : gmap string (list (list (odict Z))) :=
  list_to_map [("peak_basics", [ex_peaks; ex_events]);
               ("peak_classification", [ex_events])].

Definition ex_fixed_arrays (it : list (list (odict Z))) (n : Z)
    : list (list (odict Z)) := it.

Definition ex_sync_arrays (f : sync_fn)
    (sel : odict (list (list (odict Z)))) : odict (list (list (odict Z))) :=
  sel.

End MoreExamples.

(** * Properties *)

(** ** Ordered dictionaries built from a key list *)

Section OdictFacts.
Context {A : Type}.
Implicit Types (g : string → A) (ks : list string).

Lemma od_get_tabulate g ks k :
  od_get k ((λ x, (x, g x)) <$> ks)
  = if decide (k ∈ ks) then Some (g k) else None.
Proof.
  induction ks as [|x ks IH]; first done.
  cbn [fmap list_fmap od_get].
  destruct (decide (k = x)) as [->|Hne].
  - by rewrite decide_True by set_solver.
  - rewrite IH. destruct (decide (k ∈ ks)).
    + by rewrite decide_True by set_solver.
    + by rewrite decide_False by set_solver.
Qed.

Lemma od_alter_tabulate (f : A → A) g ks k :
  NoDup ks →
  od_alter f k ((λ x, (x, g x)) <$> ks)
  = (λ x, (x, if decide (x = k) then f (g x) else g x)) <$> ks.
Proof.
  induction 1 as [|x ks Hx Hnd IH]; first done.
  cbn [fmap list_fmap od_alter].
  destruct (decide (k = x)) as [->|Hne].
  - rewrite decide_True by done. f_equal.
    apply list_fmap_ext. intros i y Hy.
    rewrite decide_False; first done.
    intros ->. apply Hx. by eapply list_elem_of_lookup_2.
  - rewrite decide_False by done. by rewrite IH.
Qed.

Lemma od_setdefault_tabulate g ks k v :
  od_setdefault k v ((λ x, (x, g x)) <$> ks)
  = if decide (k ∈ ks) then (λ x, (x, g x)) <$> ks
    else ((λ x, (x, g x)) <$> ks) ++ [(k, v)].
Proof.
  unfold od_setdefault. rewrite od_get_tabulate. by case_decide.
Qed.
End OdictFacts.

(** ** First-appearance order *)

Lemma elem_of_nub l x : x ∈ nub l ↔ x ∈ l.
Proof.
  induction l as [|y l IH]; simpl; first done.
  rewrite elem_of_cons, list_elem_of_filter, IH, elem_of_cons.
  destruct (decide (x = y)); naive_solver.
Qed.

Lemma NoDup_nub l : NoDup (nub l).
Proof.
  induction l as [|y l IH]; simpl; first constructor.
  constructor.
  - rewrite list_elem_of_filter. naive_solver.
  - by apply NoDup_filter.
Qed.

Lemma nub_snoc l x :
  nub (l ++ [x]) = if decide (x ∈ l) then nub l else nub l ++ [x].
Proof.
  induction l as [|y l IH]; first done.
  cbn [app nub]. rewrite IH. destruct (decide (x ∈ l)) as [Hin|Hnin].
  -
by rewrite decide_True by set_solver.
  - rewrite filter_app. destruct (decide (x = y)) as [->|Hne].
    + rewrite decide_True by set_solver.
      rewrite filter_cons_False by naive_solver.
      by rewrite filter_nil, app_nil_r.
    + rewrite decide_False by set_solver.
      by rewrite filter_cons_True by done.
Qed.

(** ** The classifier computes [buckets] *)

Section ClassifierFacts.

Context {ftype : Type}.
Variable self : @StraxPlugin ftype.

Lemma resolved_app ds1 ds2 :
  resolved self (ds1 ++ ds2) ↔ resolved self ds1 ∧ resolved self ds2.
Proof. apply Forall_app. Qed.

Lemma classify_loop_app rt ds1 ds2 st :
  classify_loop self rt (ds1 ++ ds2) st
  = classify_loop self rt ds1 st ≫= classify_loop self rt ds2.
Proof.
  revert st. induction ds1 as [|d ds1 IH]; intros st; first done.
  cbn [app classify_loop].
  destruct (classify_step self rt d st) as [st'|e]; last done.
  apply IH.
Qed.

Lemma elem_of_kinds_in_order ds k :
  k ∈ kinds_in_order self ds ↔ ∃ d, d ∈ ds ∧ dependency_kinds self !! d = Some k.
Proof.
  unfold kinds_in_order. rewrite elem_of_nub, list_elem_of_omap.
  naive_solver.
Qed.

Lemma elem_of_deps_of_kind ds k d :
  d ∈ deps_of_kind self k ds ↔ d ∈ ds ∧ dependency_kinds self !! d = Some k.
Proof.
  unfold deps_of_kind, kind_is. rewrite list_elem_of_filter.
  rewrite bool_decide_spec. naive_solver.
Qed.

(** [lacks_time] in elementary terms. *)
Lemma lacks_time_spec ds k :
  lacks_time self ds k ↔
  ∀ d, d ∈ ds → dependency_kinds self !! d = Some k → ¬ time_bearing self d.
Proof.
  unfold lacks_time, timed. split.
  - intros Hnil d Hd Hk Ht.
    assert (d ∈ filter (λ d, time_bearing self d) (deps_of_kind self k ds))
      as Hin by (apply list_elem_of_filter; by rewrite elem_of_deps_of_kind).
    rewrite Hnil in Hin. by apply elem_of_nil in Hin.
  - intros Hall.
    destruct (filter _ _) as [|d l] eqn:E; first done.
    assert (d ∈ filter (λ d, time_bearing self d) (deps_of_kind self k ds))
      as Hin by (rewrite E; set_solver).
    apply list_elem_of_filter in Hin as [Ht Hin].
    apply elem_of_deps_of_kind in Hin as [Hd Hk]. naive_solver.
Qed.

Lemma deps_of_kind_nil ds k :
  k ∉ kinds_in_order self ds → deps_of_kind self k ds = [].
Proof.
  intros Hk. destruct (deps_of_kind self k ds) as [|d l] eqn:E; first done.
  exfalso. apply Hk, elem_of_kinds_in_order. exists d.
  apply elem_of_deps_of_kind. rewrite E. set_solver.
Qed.

Lemma deps_of_kind_snoc ds k d :
  deps_of_kind self k (ds ++ [d])
  = deps_of_kind self k ds ++ (if kind_is self k d then [d] else []).
Proof.
  unfold deps_of_kind. rewrite filter_app. f_equal.
  destruct (kind_is self k d) eqn:E.
  - by rewrite filter_cons_True by (rewrite E; naive_solver).
  - by rewrite filter_cons_False by (rewrite E; naive_solver).
Qed.

Lemma kinds_in_order_snoc ds d k :
  dependency_kinds self !! d = Some k →
  kinds_in_order self (ds ++ [d])
  = if decide (k ∈ kinds_in_order self ds) then kinds_in_order self ds
    else kinds_in_order self ds ++ [k].
Proof.
  intros Hk. unfold kinds_in_order. rewrite omap_app. simpl. rewrite Hk.
  rewrite nub_snoc.
  destruct (decide (k ∈ omap _ ds)) as [Hin|Hnin].
  - by rewrite decide_True by by apply elem_of_nub.
  - by rewrite decide_False by by rewrite elem_of_nub.
Qed.

Lemma bucket_of_snoc ds d k :
  dependency_kinds self !! d = Some k →
  bucket_of self (ds ++ [d]) k
  = if time_bearing self d then d :: bucket_of self ds k
    else bucket_of self ds k ++ [d].
Proof.
  intros Hk. unfold bucket_of. rewrite deps_of_kind_snoc.
  unfold kind_is. rewrite bool_decide_eq_true_2 by done.
  unfold timed, untimed. rewrite !filter_app.
  destruct (time_bearing self d) eqn:E.
  - rewrite (filter_cons_True _ d) by (rewrite E; naive_solver).
    rewrite (filter_cons_False _ d) by (rewrite E; naive_solver).
    rewrite !filter_nil, app_nil_r, reverse_app. done.
  - rewrite (filter_cons_False _ d) by (rewrite E; naive_solver).
    rewrite (filter_cons_True _ d) by (rewrite E; naive_solver).
    rewrite !filter_nil, app_nil_r. by rewrite (assoc_L (++)).
Qed.

Lemma bucket_of_snoc_ne ds d k k' :
  dependency_kinds self !! d = Some k → k' ≠ k →
  bucket_of self (ds ++ [d]) k' = bucket_of self ds k'.
Proof.
  intros Hk Hne. unfold bucket_of. rewrite deps_of_kind_snoc.
  unfold kind_is. rewrite bool_decide_eq_false_2 by congruence.
  by rewrite app_nil_r.
Qed.

Lemma timed_snoc ds d :
  timed self (ds ++ [d])
  = if time_bearing self d then timed self ds ++ [d] else timed self ds.
Proof.
  unfold timed. rewrite filter_app.
  destruct (time_bearing self d) eqn:E.
  - by rewrite filter_cons_True by (rewrite E; naive_solver).
  - rewrite filter_cons_False by (rewrite E; naive_solver). by rewrite app_nil_r.
Qed.

(** One more dependency: what the loop body does to the two variables. *)
Lemma classify_step_buckets ds d :
  resolved self [d] →
  classify_step self true d (buckets self ds, timed self ds)
  = Ok (buckets self (ds ++ [d]), timed self (ds ++ [d])).
Proof.
  intros Hr. apply Forall_singleton in Hr as [[k Hk] [dt Hdt]].
  unfold classify_step, getitem. rewrite Hk, Hdt. cbn [mbind res_bind].
  assert (od_setdefault k [] (buckets self ds)
          = (λ x, (x, bucket_of self ds x)) <$> kinds_in_order self (ds ++ [d]))
    as ->.
  { unfold buckets. rewrite od_setdefault_tabulate, (kinds_in_order_snoc _ _ k Hk).
    destruct (decide (k ∈ kinds_in_order self ds)) as [|Hin]; first done.
    rewrite fmap_app. cbn [fmap list_fmap]. do 3 f_equal.
    unfold bucket_of. by rewrite (deps_of_kind_nil _ _ Hin). }
  assert (time_bearing self d = bool_decide ("time" ∈ names dt)) as Htb
    by (unfold time_bearing; by rewrite Hdt).
  rewrite timed_snoc, Htb.
  destruct (bool_decide ("time" ∈ names dt)) eqn:Ht;
    rewrite od_alter_tabulate by apply NoDup_nub; f_equal; f_equal;
    unfold buckets; apply list_fmap_ext; intros i x _; f_equal;
    (destruct (decide (x = k)) as [->|Hx];
       [by rewrite (bucket_of_snoc _ _ _ Hk), Htb
       |by rewrite (bucket_of_snoc_ne _ _ _ _ Hk Hx)]).
Qed.

Lemma classify_loop_buckets ds :
  resolved self ds →
  classify_loop self true ds ([], []) = Ok (buckets self ds, timed self ds).
Proof.
  induction ds as [|d ds IH] using rev_ind; intros Hr; first done.
  apply resolved_app in Hr as [Hr1 Hr2].
  rewrite classify_loop_app, (IH Hr1). cbn [mbind res_bind classify_loop].
  by rewrite (classify_step_buckets _ _ Hr2).
Qed.

Lemma bucket_of_head ds k :
  k ∈ kinds_in_order self ds →
  ∃ d0 rest, bucket_of self ds k = d0 :: rest ∧ d0 ∈ ds ∧
             (time_bearing self d0 ↔ ¬ lacks_time self ds k).
Proof.
  intros Hk. apply elem_of_kinds_in_order in Hk as (d & Hd & Hkd).
  assert (d ∈ deps_of_kind self k ds) as Hdk
    by by apply elem_of_deps_of_kind.
  unfold bucket_of, lacks_time.
  destruct (timed self (deps_of_kind self k ds)) as [|t ts] eqn:Et.
  - rewrite reverse_nil, app_nil_l.
    assert (d ∈ untimed self (deps_of_kind self k ds)) as Hu.
    { apply list_elem_of_filter. split; last done.
      intros Ht. assert (d ∈ timed self (deps_of_kind self k ds)) as Hin
        by by apply list_elem_of_filter.
      rewrite Et in Hin. set_solver. }
    destruct (untimed self (deps_of_kind self k ds)) as [|d0 rest] eqn:Eu;
      first set_solver.
    exists d0, rest. split; first done.
    assert (d0 ∈ untimed self (deps_of_kind self k ds)) as Hd0
      by (rewrite Eu; set_solver).
    apply list_elem_of_filter in Hd0 as [Hnt Hd0].
    apply elem_of_deps_of_kind in Hd0 as [Hd0 _]. naive_solver.
  - destruct (reverse (t :: ts)) as [|d0 rest] eqn:Er.
    { apply (f_equal length) in Er. rewrite length_reverse in Er. done. }
    exists d0, (rest ++ untimed self (deps_of_kind self k ds)).
    split; first done.
    assert (d0 ∈ timed self (deps_of_kind self k ds)) as Hd0.
    { rewrite Et, <- elem_of_reverse, Er. set_solver. }
    apply list_elem_of_filter in Hd0 as [Ht Hd0].
    apply elem_of_deps_of_kind in Hd0 as [Hd0 _]. naive_solver.
Qed.

Lemma check_time_buckets ds ks :
  (∀ k, k ∈ ks → k ∈ kinds_in_order self ds) →
  check_time (timed self ds) ((λ k, (k, bucket_of self ds k)) <$> ks)
  = match head (filter (lacks_time self ds) ks) with
    | Some k => Raise (ValueError (no_time_msg k))
    | None => Ok tt
    end.
Proof.
  induction ks as [|k ks IH]; intros Hks; first done.
  cbn [fmap list_fmap check_time].
  destruct (bucket_of_head ds k) as (d0 & rest & -> & Hd0 & Ht);
    first set_solver.
  destruct (decide (lacks_time self ds k)) as [Hl|Hl].
  - rewrite filter_cons_True by done. cbn [head].
    rewrite bool_decide_eq_false_2; first done.
    unfold timed. rewrite list_elem_of_filter. naive_solver.
  - rewrite filter_cons_False by done.
    rewrite bool_decide_eq_true_2.
    + apply IH. set_solver.
    + unfold timed. rewrite list_elem_of_filter. naive_solver.
Qed.

(** The loop succeeds only if both dictionaries know every dependency. *)
Lemma classify_loop_Ok_resolved ds : ∀ st st',
  classify_loop self true ds st = Ok st' → resolved self ds.
Proof.
  induction ds as [|d ds IH]; intros st st' Hok; first by constructor.
  cbn [classify_loop] in Hok.
  destruct (classify_step self true d st) as [st1|] eqn:E; last done.
  cbn [mbind res_bind] in Hok. constructor; last by eapply IH.
  unfold classify_step, getitem in E. destruct st as [m kd].
  destruct (dependency_kinds self !! d); last done.
  cbn [mbind res_bind] in E.
  destruct (dependency_dtypes self !! d); last done.
  split; by eexists.
Qed.

Lemma dependencies_by_kind_Ok_resolved ds m :
  depends_on self = Some ds →
  dependencies_by_kind self true = Ok m → resolved self ds.
Proof.
  intros Hds Hok. unfold dependencies_by_kind, getattr_depends_on in Hok.
  rewrite Hds in Hok. cbn [mbind res_bind] in Hok.
  destruct (classify_loop self true ds ([], [])) as [st|] eqn:E; last done.
  by eapply classify_loop_Ok_resolved.
Qed.

(** The classifier, in closed form. *)
Lemma dependencies_by_kind_spec ds :
  depends_on self = Some ds → resolved self ds →
  dependencies_by_kind self true
  = match first_lacking self ds with
    | Some k => Raise (ValueError (no_time_msg k))
    | None => Ok (buckets self ds)
    end.
Proof.
  intros Hds Hr. unfold dependencies_by_kind, getattr_depends_on.
  rewrite Hds. cbn [mbind res_bind].
  rewrite (classify_loop_buckets _ Hr). cbn [mbind res_bind].
  pose proof (check_time_buckets ds (kinds_in_order self ds)) as Hc.
  fold (buckets self ds) in Hc. rewrite Hc by done.
  unfold first_lacking. by destruct (head _).
Qed.

End ClassifierFacts.

(** ** The classifier: claims *)

Section ClassifierClaims.

Context {ftype chunk R handle : Type}.
Variable fixed_length_chunks : list chunk → Z → list chunk.
Variable sync_iters : sync_fn → odict (list chunk) → odict (list chunk).
Variable self : @StraxPlugin ftype.

Lemma first_lacking_None ds :
  first_lacking self ds = None ↔ every_kind_timed self ds.
Proof.
  unfold first_lacking, every_kind_timed. rewrite head_None, Forall_forall.
  split.
  - intros Hf k Hk Hl.
    assert (k ∈ filter (lacks_time self ds) (kinds_in_order self ds)) as Hin
      by by apply list_elem_of_filter.
    rewrite Hf in Hin. set_solver.
  - intros Ht. destruct (filter _ _) as [|k l] eqn:E; first done.
    assert (k ∈ filter (lacks_time self ds) (kinds_in_order self ds)) as Hin
      by (rewrite E; set_solver).
    apply list_elem_of_filter in Hin as [Hl Hk]. naive_solver.
Qed.

Lemma first_lacking_Some ds k0 :
  first_lacking self ds = Some k0 →
  k0 ∈ kinds_in_order self ds ∧ lacks_time self ds k0.
Proof.
  unfold first_lacking. intros Hh.
  destruct (filter _ _) as [|k l] eqn:E; first done.
  injection Hh as ->.
  assert (k0 ∈ filter (lacks_time self ds) (kinds_in_order self ds)) as Hin
    by (rewrite E; set_solver).
  apply list_elem_of_filter in Hin. naive_solver.
Qed.

Lemma buckets_get ds k :
  k ∈ kinds_in_order self ds →
  od_get k (buckets self ds) = Some (bucket_of self ds k).
Proof.
  intros Hk. unfold buckets. rewrite od_get_tabulate.
  by rewrite decide_True.
Qed.

(** What the classifier does for a kind that has a time-bearing
    dependency: its group is the time-bearing dependencies, latest first,
    then the others; an error can only come from another kind. *)
Lemma dependencies_by_kind_timed_kind ds k :
  depends_on self = Some ds → resolved self ds →
  timed self (deps_of_kind self k ds) ≠ [] →
  match dependencies_by_kind self true with
  | Ok m => od_get k m = Some (bucket_of self ds k)
  | Raise e => ∃ k', k' ≠ k ∧ k' ∈ kinds_in_order self ds ∧
                     lacks_time self ds k' ∧ e = ValueError (no_time_msg k')
  end.
Proof.
  intros Hds Hr Ht. rewrite (dependencies_by_kind_spec _ _ Hds Hr).
  destruct (first_lacking self ds) as [k'|] eqn:E.
  - apply first_lacking_Some in E as [Hk' Hl]. exists k'.
    split_and!; try done. intros ->. done.
  - apply buckets_get. apply elem_of_kinds_in_order.
    destruct (timed self (deps_of_kind self k ds)) as [|d l] eqn:Et;
      first done.
    assert (d ∈ timed self (deps_of_kind self k ds)) as Hd
      by (rewrite Et; set_solver).
    apply list_elem_of_filter in Hd as [_ Hd].
    apply elem_of_deps_of_kind in Hd. naive_solver.
Qed.

Lemma dependencies_by_kind_Ok ds :
  depends_on self = Some ds → resolved self ds →
  every_kind_timed self ds →
  dependencies_by_kind self true = Ok (buckets self ds).
Proof.
  intros Hds Hr Ht. rewrite (dependencies_by_kind_spec _ _ Hds Hr).
  apply first_lacking_None in Ht. by rewrite Ht.
Qed.

(** C1, as amended.  If some kind among the declared dependencies has no
    dependency whose schema contains a time field, [dependencies_by_kind]
    with [require_time] true raises a [ValueError] whose message names a
    kind without time information: the first such kind in order of first
    appearance, which is the given kind whenever it is the only one.
    [iter] raises the same error with nothing yielded and the iterators
    untouched, so before any chunk is pulled. *)
Theorem classify_fails_naming_untimed_kind ds k
    (compute : odict chunk → res R) (iters : gmap string (list chunk))
    n_per_iter (executor : option (@Executor chunk R handle)) fuel :
  depends_on self = Some ds → resolved self ds →
  k ∈ kinds_in_order self ds → lacks_time self ds k →
  ∃ k0, k0 ∈ kinds_in_order self ds ∧ lacks_time self ds k0 ∧
    first_lacking self ds = Some k0 ∧
    ((∀ k', k' ∈ kinds_in_order self ds → lacks_time self ds k' → k' = k)
       → k0 = k) ∧
    dependencies_by_kind self true = Raise (ValueError (no_time_msg k0)) ∧
    iter fixed_length_chunks sync_iters self compute iters n_per_iter
         executor fuel
    = {| yielded := []; ended := Raised (ValueError (no_time_msg k0));
         final_iters := iters |}.
Proof.
  intros Hds Hr Hk Hl.
  destruct (first_lacking self ds) as [k0|] eqn:E.
  - pose proof (first_lacking_Some _ _ E) as [Hk0 Hl0].
    pose proof (dependencies_by_kind_spec _ _ Hds Hr) as Hspec.
    rewrite E in Hspec.
    exists k0. split_and!; try done.
    + intros Huniq. by apply Huniq.
    + unfold iter, prepare, lift. cbn [mbind M_bind]. by rewrite Hspec.
  - apply first_lacking_None in E.
    unfold every_kind_timed in E. rewrite Forall_forall in E.
    naive_solver.
Qed.

Lemma bucket_of_single_timed ds k pre d post :
  deps_of_kind self k ds = pre ++ d :: post →
  time_bearing self d → timed self (pre ++ post) = [] →
  bucket_of self ds k = d :: pre ++ post.
Proof.
  intros Hdk Hd Hno. unfold bucket_of. rewrite Hdk.
  unfold timed, untimed in *. rewrite filter_app in Hno.
  apply app_eq_nil in Hno as [Hpre Hpost].
  rewrite !filter_app, (filter_cons_True _ d), Hpre, Hpost by done.
  rewrite (filter_cons_False _ d) by naive_solver.
  cbn [app]. rewrite reverse_singleton. cbn [app]. f_equal.
  assert (∀ l : list string,
             filter (λ x, time_bearing self x) l = [] →
             filter (λ x, ¬ time_bearing self x) l = l) as Hall.
  { intros l Hl. induction l as [|x l IH]; first done.
    destruct (time_bearing self x) eqn:Ex.
    - rewrite filter_cons_True in Hl by (rewrite Ex; naive_solver). done.
    - rewrite filter_cons_False in Hl by (rewrite Ex; naive_solver).
      rewrite filter_cons_True by (rewrite Ex; naive_solver).
      by rewrite IH. }
  by rewrite !Hall.
Qed.

(** C2. If exactly one dependency of a kind has a time field, wherever it
    stands among the dependencies of that kind ([pre] before it, [post]
    after it), every dictionary the classifier returns lists it first for
    that kind, followed by the other dependencies of the kind in
    declaration order; and the classifier does return one when every kind
    has a time-bearing dependency. *)
Theorem classify_single_timed_first ds k pre d post :
  depends_on self = Some ds → resolved self ds →
  deps_of_kind self k ds = pre ++ d :: post →
  time_bearing self d → timed self (pre ++ post) = [] →
  (∀ m, dependencies_by_kind self true = Ok m →
        od_get k m = Some (d :: pre ++ post)) ∧
  (every_kind_timed self ds →
   ∃ m, dependencies_by_kind self true = Ok m ∧
        od_get k m = Some (d :: pre ++ post)).
Proof.
  intros Hds Hr Hdk Hd Hno.
  assert (timed self (deps_of_kind self k ds) ≠ []) as Hne.
  { rewrite Hdk. unfold timed. rewrite filter_app, filter_cons_True by done.
    by destruct (filter _ pre). }
  pose proof (dependencies_by_kind_timed_kind ds k Hds Hr Hne) as Hcl.
  rewrite (bucket_of_single_timed _ _ _ _ _ Hdk Hd Hno) in Hcl.
  split.
  - intros m Hm. by rewrite Hm in Hcl.
  - intros Hall. rewrite (dependencies_by_kind_Ok _ Hds Hr Hall) in Hcl |- *.
    eauto.
Qed.

(** C10. If a kind has more than one time-bearing dependency ([ts] and
    then [d], the last declared), every dictionary the classifier returns
    with [require_time] true lists [d] first for that kind, then the
    earlier time-bearing ones from the latest to the earliest, then the
    dependencies without time in declaration order.  The classifier raises
    no error on account of this kind: an error names another kind, one
    without time information, and there is none when every kind has a
    time-bearing dependency. *)
Theorem classify_latest_timed_first ds k ts d :
  depends_on self = Some ds → resolved self ds →
  timed self (deps_of_kind self k ds) = ts ++ [d] → ts ≠ [] →
  let group := d :: reverse ts ++ untimed self (deps_of_kind self k ds) in
  (∀ m, dependencies_by_kind self true = Ok m → od_get k m = Some group) ∧
  (∀ e, dependencies_by_kind self true = Raise e →
        ∃ k', k' ≠ k ∧ lacks_time self ds k' ∧
              e = ValueError (no_time_msg k')) ∧
  (every_kind_timed self ds →
   ∃ m, dependencies_by_kind self true = Ok m ∧ od_get k m = Some group).
Proof.
  intros Hds Hr Hts _ group.
  assert (timed self (deps_of_kind self k ds) ≠ []) as Hne
    by (rewrite Hts; by destruct ts).
  pose proof (dependencies_by_kind_timed_kind ds k Hds Hr Hne) as Hcl.
  assert (bucket_of self ds k = group) as Hb.
  { unfold bucket_of, group. rewrite Hts, reverse_app, reverse_singleton.
    done. }
  rewrite Hb in Hcl. split_and!.
  - intros m Hm. by rewrite Hm in Hcl.
  - intros e He. rewrite He in Hcl. naive_solver.
  - intros Hall. rewrite (dependencies_by_kind_Ok _ Hds Hr Hall) in Hcl |- *.
    eauto.
Qed.

End ClassifierClaims.

(** ** The streaming loop *)

Section ExecutorFacts.

Context {ftype chunk R handle : Type}.
Implicit Types (iters : gmap string (list chunk)) (ds : list string).

Lemma od_set_fresh {A : Type} (m : odict A) k v :
  k ∉ m.*1 → od_set k v m = m ++ [(k, v)].
Proof.
  induction m as [|[k' v'] m IH]; intros Hk; first done.
  cbn [od_set app]. rewrite decide_False by set_solver.
  rewrite IH; [done | set_solver].
Qed.

Lemma batch_at_insert_fresh ds iters d its i :
  d ∉ ds → batch_at ds (<[d := its]> iters) i = batch_at ds iters i.
Proof.
  induction ds as [|x ds IH]; intros Hd; first done.
  cbn [batch_at]. rewrite lookup_insert_ne by set_solver.
  rewrite IH by set_solver. done.
Qed.

Lemma batch_at_ext ds iters iters' i j :
  (∀ d, d ∈ ds → (iters' !! d) ≫= (.!! i) = (iters !! d) ≫= (.!! j)) →
  batch_at ds iters' i = batch_at ds iters j.
Proof.
  induction ds as [|x ds IH]; intros Hd; first done.
  cbn [batch_at]. rewrite IH by set_solver.
  specialize (Hd x ltac:(set_solver)).
  destruct (iters' !! x) as [l'|], (iters !! x) as [l|]; simpl in *;
    first [by rewrite Hd | by rewrite <- Hd | done].
Qed.

(** Every dependency still has a chunk: a full batch is assembled and
    every dependency's iterator advances by one chunk. *)
Lemma next_batch_full ds : ∀ (acc : odict chunk) iters,
  NoDup ds → (∀ d, d ∈ ds → d ∉ acc.*1) →
  Forall (λ d, ∃ its, iters !! d = Some its ∧ 1 ≤ length its) ds →
  ∃ b iters', next_batch ds acc iters = (Batch (acc ++ b), iters') ∧
    batch_at ds iters 0 = Some b ∧
    ∀ d, iters' !! d
         = if decide (d ∈ ds) then tail <$> iters !! d else iters !! d.
Proof.
  induction ds as [|d ds IH]; intros acc iters Hnd Hacc Hlen.
  - exists [], iters. rewrite app_nil_r. split_and!; try done.
  - apply NoDup_cons in Hnd as [Hd Hnd].
    apply Forall_cons in Hlen as [(its & Hits & Hl) Hlen].
    destruct its as [|c rest]; first (simpl in Hl; lia).
    destruct (IH (od_set d c acc) (<[d := rest]> iters))
      as (b & iters' & Hnb & Hb & Hlk); first done.
    { intros x Hx. rewrite od_set_fresh by set_solver.
      rewrite fmap_app. set_solver. }
    { rewrite Forall_forall in Hlen |- *. intros x Hx.
      rewrite lookup_insert_ne; [by apply Hlen | set_solver]. }
    exists ((d, c) :: b), iters'. split_and!.
    + cbn [next_batch]. rewrite Hits, Hnb, od_set_fresh by set_solver.
      by rewrite <- (assoc_L (++)).
    + rewrite batch_at_insert_fresh in Hb by done.
      cbn [batch_at]. by rewrite Hits, Hb.
    + intros x. rewrite Hlk. destruct (decide (x = d)) as [->|Hne].
      * rewrite decide_False by done. rewrite decide_True by set_solver.
        by rewrite lookup_insert_eq, Hits.
      * rewrite lookup_insert_ne by done.
        destruct (decide (x ∈ ds)).
        -- by rewrite decide_True by set_solver.
        -- by rewrite decide_False by set_solver.
Qed.

(** Some dependency is exhausted: no batch. *)
Lemma next_batch_stop ds : ∀ (acc : odict chunk) iters,
  NoDup ds → Forall (λ d, is_Some (iters !! d)) ds →
  Exists (λ d, iters !! d = Some []) ds →
  ∃ iters', next_batch ds acc iters = (StopIteration, iters').
Proof.
  induction ds as [|d ds IH]; intros acc iters Hnd Hall Hex.
  - by apply Exists_nil in Hex.
  - apply NoDup_cons in Hnd as [Hd Hnd].
    apply Forall_cons in Hall as [[its Hits] Hall].
    cbn [next_batch]. rewrite Hits. destruct its as [|c rest]; first eauto.
    apply IH; first done.
    + rewrite Forall_forall in Hall |- *. intros x Hx.
      rewrite lookup_insert_ne; [by apply Hall | set_solver].
    + apply Exists_cons in Hex as [Hex|Hex]; first congruence.
      apply Exists_exists in Hex as (x & Hx & Hx').
      apply Exists_exists. exists x. split; first done.
      rewrite lookup_insert_ne; [done|set_solver].
Qed.

Lemma omap_seq_shift {B : Type} (f g : nat → option B) n : ∀ j,
  (∀ i, g i = f (S i)) → omap f (seq (S j) n) = omap g (seq j n).
Proof.
  induction n as [|n IH]; intros j Hfg; first done.
  cbn [seq omap list_omap]. rewrite Hfg.
  destruct (f (S j)); by erewrite IH.
Qed.

Variable self : @StraxPlugin ftype.
Variable compute : odict chunk → res R.
Variable executor : option (@Executor chunk R handle).

(** The loop yields what [emit] gives for the first [n] batches, where
    [n] is the length of the shortest iterator; [n + 1] turns suffice. *)
Lemma pull_loop_spec ds n : ∀ iters fuel,
  NoDup ds →
  Forall (λ d, ∃ its, iters !! d = Some its ∧ n ≤ length its) ds →
  Exists (λ d, ∃ its, iters !! d = Some its ∧ length its = n) ds →
  n < fuel →
  (yielded (pull_loop self compute executor ds fuel iters),
   ended (pull_loop self compute executor ds fuel iters))
  = emit_all (emit self compute executor) (batches ds iters n) ∧
  length (batches ds iters n) = n.
Proof.
  induction n as [|n IH]; intros iters fuel Hnd Hall Hex Hfuel;
    (destruct fuel as [|fuel]; first lia); cbn [pull_loop].
  - destruct (next_batch_stop ds [] iters) as [iters' ->]; try done.
    + eapply Forall_impl; first exact Hall. naive_solver.
    + eapply Exists_impl; first exact Hex.
      intros d (its & Hits & Hl). destruct its; naive_solver.
  - destruct (next_batch_full ds [] iters) as (b & iters' & -> & Hb & Hlk);
      try done.
    { set_solver. }
    { eapply Forall_impl; first exact Hall. simpl.
      intros d (its & ? & ?). exists its. split; [done|lia]. }
    cbn [app].
    assert (batches ds iters (S n) = b :: batches ds iters' n) as ->.
    { unfold batches. cbn [seq omap list_omap]. rewrite Hb. f_equal.
      apply omap_seq_shift. intros i. apply batch_at_ext.
      intros d Hd. rewrite Hlk, decide_True by done.
      destruct (iters !! d); simpl; [by rewrite lookup_tail | done]. }
    destruct (IH iters' fuel) as [IHy IHl]; try done; try lia.
    { apply Forall_forall. intros d Hd.
      rewrite Forall_forall in Hall. destruct (Hall d Hd) as (its & Hits & Hl).
      exists (tail its). rewrite Hlk, decide_True, Hits by done.
      split; first done. destruct its; simpl in *; lia. }
    { apply Exists_exists in Hex as (d & Hd & its & Hits & Hl).
      apply Exists_exists. exists d. split; first done.
      exists (tail its). rewrite Hlk, decide_True, Hits by done.
      split; first done. destruct its; simpl in *; lia. }
    split; last (cbn [length]; by rewrite IHl).
    cbn [emit_all]. unfold emit at 1.
    destruct (multiprocess self), executor as [ex|];
      try destruct (compute b) as [r|e]; try done;
      cbn [yield yielded ended]; rewrite <- IHy; done.
Qed.

End ExecutorFacts.

(** ** The streaming loop: claims *)

Section ExecutorClaims.

Context {ftype chunk R handle : Type}.
Variable fixed_length_chunks : list chunk → Z → list chunk.
Variable sync_iters : sync_fn → odict (list chunk) → odict (list chunk).
Variable self : @StraxPlugin ftype.
Variable compute : odict chunk → res R.
Variable executor : option (@Executor chunk R handle).

Implicit Types (iters aligned : gmap string (list chunk)).

Lemma iter_prepared iters n_per_iter ds aligned fuel :
  prepare fixed_length_chunks sync_iters self n_per_iter iters
    = (Ok ds, aligned) →
  iter fixed_length_chunks sync_iters self compute iters n_per_iter
       executor fuel
  = pull_loop self compute executor ds fuel aligned.
Proof. intros Hp. unfold iter. by rewrite Hp. Qed.

Lemma emit_all_total (f : odict chunk → res (R + handle)) bs :
  (∀ b, b ∈ bs → ∃ x, f b = Ok x) →
  ∃ xs, emit_all f bs = (xs, Returned) ∧ Forall2 (λ b x, f b = Ok x) bs xs.
Proof.
  induction bs as [|b bs IH]; intros Hf.
  - exists []. by split.
  - destruct (Hf b) as [x Hx]; first set_solver.
    destruct IH as (xs & Hxs & Hall); first set_solver.
    exists (x :: xs). cbn [emit_all]. rewrite Hx, Hxs.
    split; first done. by constructor.
Qed.

Lemma length_omap_le {A B : Type} (f : A → option B) (l : list A) :
  length (omap f l) ≤ length l.
Proof.
  induction l as [|x l IH]; first done.
  cbn [omap list_omap length]. destruct (f x); simpl; lia.
Qed.

Lemma omap_full_lookup {A B : Type} (f : A → option B) (l : list A) :
  length (omap f l) = length l →
  ∀ i x, l !! i = Some x → ∃ y, f x = Some y ∧ omap f l !! i = Some y.
Proof.
  induction l as [|a l IH]; intros Hlen i x Hi; first done.
  cbn [omap list_omap] in *. destruct (f a) as [y|] eqn:Ea.
  - destruct i as [|i]; simpl in *.
    + injection Hi as <-. eauto.
    + apply IH; [lia|done].
  - pose proof (length_omap_le f l). simpl in Hlen. lia.
Qed.

Lemma batches_lookup ds iters n i :
  length (batches ds iters n) = n → i < n →
  ∃ b, batch_at ds iters i = Some b ∧ batches ds iters n !! i = Some b.
Proof.
  intros Hlen Hi. unfold batches in *.
  apply (omap_full_lookup _ (seq 0 n)).
  - by rewrite length_seq.
  - by rewrite lookup_seq_lt.
Qed.


(** C5. Under the same conditions ([compute] has to succeed on the
    assembled batches only, and not even there if every batch is
    dispatched): the [i]-th output comes from the [i]-th batch; it is the
    handle of a submission to the executor exactly when the plugin is
    marked [multiprocess] and an executor was passed, and otherwise the
    result of [compute] on that batch. *)
Theorem iter_dispatches_iff_multiprocess_and_executor
    iters n_per_iter ds aligned n fuel :
  prepare fixed_length_chunks sync_iters self n_per_iter iters
    = (Ok ds, aligned) →
  NoDup ds →
  Forall (λ d, ∃ its, aligned !! d = Some its ∧ n ≤ length its) ds →
  Exists (λ d, ∃ its, aligned !! d = Some its ∧ length its = n) ds →
  (multiprocess self = true ∧ is_Some executor) ∨
    Forall (λ b, ∃ r, compute b = Ok r) (batches ds aligned n) →
  n < fuel →
  let out := iter fixed_length_chunks sync_iters self compute iters
                  n_per_iter executor fuel in
  length (yielded out) = n ∧
  ∀ i, i < n →
    ∃ b x, batch_at ds aligned i = Some b ∧ yielded out !! i = Some x ∧
      match x with
      | inr h => multiprocess self = true ∧
                 ∃ ex, executor = Some ex ∧ h = submit ex compute b
      | inl r => ¬ (multiprocess self = true ∧ is_Some executor) ∧
                 compute b = Ok r
      end.
Proof.
  intros Hp Hnd Hall Hex Hc Hfuel out. unfold out.
  rewrite (iter_prepared _ _ _ _ _ Hp).
  destruct (pull_loop_spec self compute executor ds n aligned fuel)
    as [Hy Hl]; try done.
  destruct (emit_all_total (emit self compute executor)
                           (batches ds aligned n)) as (xs & Hxs & Hf2).
  { intros b Hb. unfold emit. destruct Hc as [[-> [ex ->]]|Hc]; first eauto.
    rewrite Forall_forall in Hc. destruct (Hc b Hb) as [r ->].
    destruct (multiprocess self), executor; eauto. }
  rewrite Hxs in Hy. injection Hy as -> _.
  pose proof (Forall2_length _ _ _ Hf2) as Hlen.
  split; first lia.
  intros i Hi. destruct (batches_lookup ds aligned n i) as (b & Hb & Hbi);
    try done.
  destruct (Forall2_lookup_l _ _ _ _ _ Hf2 Hbi) as (x & Hx & Hemit).
  exists b, x. split_and!; try done.
  unfold emit in Hemit.
  destruct (multiprocess self), executor as [ex|];
    try destruct (compute b) as [r|e]; simplify_eq; try done;
    first [ split; [done | eauto]
          | split; [ by intros [? [? ?]] | done] ].
Qed.

End ExecutorClaims.

(** ** Flow control: claims *)

Section FlowControlClaims.

Context {ftype chunk R handle : Type}.
Variable fixed_length_chunks : list chunk → Z → list chunk.
Variable sync_iters : sync_fn → odict (list chunk) → odict (list chunk).
Variable self : @StraxPlugin ftype.
Variable compute : odict chunk → res R.
Variable executor : option (@Executor chunk R handle).

Implicit Types (iters : gmap string (list chunk)).

#[local] Existing Instance M_ret.
#[local] Existing Instance M_bind.

(** The first group of a successful classification starts with a
    time-bearing dependency of the first kind to appear. *)
Lemma first_group_canonical ds kind deps groups :
  depends_on self = Some ds →
  dependencies_by_kind self true = Ok ((kind, deps) :: groups) →
  head (kinds_in_order self ds) = Some kind ∧
  ∃ d rest, deps = d :: rest ∧ time_bearing self d ∧
            dependency_kinds self !! d = Some kind.
Proof.
  intros Hds Hok.
  pose proof (dependencies_by_kind_Ok_resolved _ _ _ Hds Hok) as Hr.
  rewrite (dependencies_by_kind_spec _ _ Hds Hr) in Hok.
  destruct (first_lacking self ds) eqn:E; first done.
  apply first_lacking_None in E. injection Hok as Hb. unfold buckets in Hb.
  destruct (kinds_in_order self ds) as [|k ks] eqn:Ek; first done.
  cbn [fmap list_fmap] in Hb. injection Hb as -> Hdeps _.
  split; first done.
  assert (kind ∈ kinds_in_order self ds) as Hin by (rewrite Ek; set_solver).
  destruct (bucket_of_head self ds kind Hin) as (d0 & rest & Hb0 & _ & Ht).
  exists d0, rest. rewrite <- Hdeps. split_and!; first done.
  - apply Ht. unfold every_kind_timed in E. rewrite Forall_forall in E.
    by apply E.
  - assert (d0 ∈ bucket_of self ds kind) as Hd0 by (rewrite Hb0; set_solver).
    unfold bucket_of in Hd0. apply elem_of_app in Hd0 as [Hd0|Hd0].
    + apply elem_of_reverse, list_elem_of_filter in Hd0 as [_ Hd0].
      by apply elem_of_deps_of_kind in Hd0 as [_ ?].
    + apply list_elem_of_filter in Hd0 as [_ Hd0].
      by apply elem_of_deps_of_kind in Hd0 as [_ ?].
Qed.

(** C4. With a bound [n] configured, [iter] rechunks the iterator of
    exactly one dependency: the first dependency [d] of the first kind
    group, which is a time-bearing dependency of the first kind to appear.
    Everything before the loop, and the run as a whole, are those of a
    call without a bound on the iterators in which [d] alone has been
    replaced by its fixed-length rechunking, and that call rechunks
    nothing, since it is the same whatever function [rechunk] stands in
    for the rechunking.  If [d] has no iterator, [iter] raises KeyError
    before any other iterator is read.  With no bound configured, or with
    no kind group at all, no iterator is rechunked. *)
Theorem iter_rechunks_first_canonical_only
    (rechunk : list chunk → Z → list chunk)
    ds deps_by_kind n_per_iter iters fuel :
  depends_on self = Some ds →
  dependencies_by_kind self true = Ok deps_by_kind →
  match n_per_iter, deps_by_kind with
  | Some n, (kind, deps) :: _ =>
      ∃ d rest, deps = d :: rest ∧ time_bearing self d ∧
        dependency_kinds self !! d = Some kind ∧
        head (kinds_in_order self ds) = Some kind ∧
        match iters !! d with
        | Some it =>
            let rechunked := <[d := fixed_length_chunks it n]> iters in
            prepare fixed_length_chunks sync_iters self (Some n) iters
            = prepare rechunk sync_iters self None rechunked ∧
            iter fixed_length_chunks sync_iters self compute iters (Some n)
                 executor fuel
            = iter rechunk sync_iters self compute rechunked None
                   executor fuel
        | None =>
            iter fixed_length_chunks sync_iters self compute iters (Some n)
                 executor fuel
            = {| yielded := []; ended := Raised (KeyError d);
                 final_iters := iters |}
        end
  | _, _ =>
      prepare fixed_length_chunks sync_iters self n_per_iter iters
      = prepare rechunk sync_iters self None iters ∧
      iter fixed_length_chunks sync_iters self compute iters n_per_iter
           executor fuel
      = iter rechunk sync_iters self compute iters None executor fuel
  end.
Proof.
  intros Hds Hok.
  assert (∀ flc n_opt its,
            prepare flc sync_iters self n_opt its
            = (_ ← flow_control flc deps_by_kind n_opt;
               _ ← sync_kinds sync_iters deps_by_kind;
               _ ← sync_lengths sync_iters (od_values deps_by_kind);
               lift (getattr_depends_on self)) its) as Hprep.
  { intros flc n_opt its. unfold prepare, lift, mbind, M_bind.
    by rewrite Hok. }
  destruct n_per_iter as [n|].
  - destruct deps_by_kind as [|[kind deps] groups].
    + assert (prepare fixed_length_chunks sync_iters self (Some n) iters
              = prepare rechunk sync_iters self None iters) as Hp
        by (by rewrite !Hprep).
      split; first done. unfold iter. by rewrite Hp.
    + destruct (first_group_canonical _ _ _ _ Hds Hok)
        as (Hkind & d & rest & -> & Ht & Hk).
      exists d, rest. split_and!; try done.
      destruct (iters !! d) as [it|] eqn:Hit.
      * assert (prepare fixed_length_chunks sync_iters self (Some n) iters
                = prepare rechunk sync_iters self None
                    (<[d := fixed_length_chunks it n]> iters)) as Hp.
        { rewrite !Hprep.
          unfold flow_control, lift, iters_getitem, iters_setitem, getitem.
          unfold mbind, M_bind, mret, M_ret. cbn [first_of].
          by rewrite Hit. }
        cbn zeta. split; first done. unfold iter. by rewrite Hp.
      * unfold iter. rewrite Hprep.
        unfold flow_control, lift, iters_getitem, iters_setitem, getitem.
        unfold mbind, M_bind. cbn [first_of]. by rewrite Hit.
  - assert (prepare fixed_length_chunks sync_iters self None iters
            = prepare rechunk sync_iters self None iters) as Hp
      by (by rewrite !Hprep).
    split; first done. unfold iter. by rewrite Hp.
Qed.

End FlowControlClaims.

(** ** MergePlugin: claims *)

Section MergeClaims.

Context {ftype : Type}.
Variable py_repr : string → string.
Variable unpack_dtype : list (string * ftype) → list (string * ftype).
Variable self : @StraxPlugin ftype.





Lemma py_sum_concat {A : Type} (ls : list (list A)) : py_sum ls = concat ls.
Proof.
  unfold py_sum. rewrite <- (app_nil_l (concat ls)). generalize (@nil A).
  induction ls as [|l ls IH]; intros acc; simpl.
  - by rewrite app_nil_r.
  - by rewrite IH, (assoc_L (++)).
Qed.

Lemma unpacked_Forall2 ds dts :
  Forall2 (λ d dt, dependency_dtypes self !! d = Some dt) ds dts →
  unpacked unpack_dtype self ds = Ok (unpack_dtype <$> dts).
Proof.
  induction 1 as [|d dt ds dts Hd _ IH]; first done.
  cbn [unpacked]. unfold getitem. rewrite Hd. cbn [mbind res_bind].
  by rewrite IH.
Qed.


Lemma nub_replicate k n : nub (replicate (S n) k) = [k].
Proof.
  induction n as [|n IH]; first done.
  change (nub (replicate (S (S n)) k))
    with (k :: filter (λ y, y ≠ k) (nub (replicate (S n) k))).
  rewrite IH. by rewrite filter_cons_False by naive_solver.
Qed.

Lemma kinds_in_order_single ds k :
  ds ≠ [] → Forall (λ d, dependency_kinds self !! d = Some k) ds →
  kinds_in_order self ds = [k].
Proof.
  intros Hne Hall. unfold kinds_in_order.
  assert (omap (λ d, dependency_kinds self !! d) ds
          = replicate (length ds) k) as ->.
  { clear Hne. induction Hall as [|d ds Hd _ IH]; first done.
    cbn [omap list_omap length replicate]. by rewrite Hd, IH. }
  destruct ds; first done. apply nub_replicate.
Qed.

Lemma deps_of_kind_all ds k :
  Forall (λ d, dependency_kinds self !! d = Some k) ds →
  deps_of_kind self k ds = ds.
Proof.
  unfold deps_of_kind, kind_is. induction 1 as [|d ds Hd _ IH]; first done.
  rewrite filter_cons_True by by apply bool_decide_spec. by rewrite IH.
Qed.


(** C9, as amended.  For a plugin whose declared dependencies (at least
    one) all have the same kind [k]: if some dependency has a time field,
    the inferred dtype is the concatenation, in the order of [depends_on],
    of the unpacked field lists of the dependencies' dtypes; if none has,
    [infer_dtype] raises the classifier's [ValueError] for [k]. *)
Theorem merge_infer_dtype_concatenates ds dts k :
  depends_on self = Some ds → ds ≠ [] →
  Forall (λ d, dependency_kinds self !! d = Some k) ds →
  Forall2 (λ d dt, dependency_dtypes self !! d = Some dt) ds dts →
  MergePlugin_infer_dtype py_repr unpack_dtype self
  = match timed self ds with
    | _ :: _ => Ok (concat (unpack_dtype <$> dts))
    | [] => Raise (ValueError (no_time_msg k))
    end.
Proof.
  intros Hds Hne Hk Hdts.
  assert (resolved self ds) as Hr.
  { unfold resolved. apply Forall_forall. intros d Hd. split.
    - rewrite Forall_forall in Hk. rewrite (Hk d Hd). eauto.
    - destruct (list_elem_of_lookup_1 _ _ Hd) as [i Hi].
      destruct (Forall2_lookup_l _ _ _ _ _ Hdts Hi) as (dt & _ & ->). eauto. }
  unfold MergePlugin_infer_dtype.
  rewrite (dependencies_by_kind_spec _ _ Hds Hr).
  unfold first_lacking, buckets. rewrite (kinds_in_order_single _ _ Hne Hk).
  assert (lacks_time self ds k ↔ timed self ds = []) as Hl
    by (unfold lacks_time; by rewrite deps_of_kind_all).
  destruct (timed self ds) as [|t ts] eqn:Et.
  - rewrite filter_cons_True by by apply Hl. done.
  - rewrite filter_cons_False by (rewrite Hl; done).
    cbn [filter list_filter head fmap list_fmap mbind res_bind length].
    rewrite bool_decide_eq_false_2 by naive_solver.
    unfold getattr_depends_on. rewrite Hds. cbn [mbind res_bind].
    rewrite (unpacked_Forall2 _ _ Hdts). cbn [mbind res_bind].
    by rewrite py_sum_concat.
Qed.

End MergeClaims.

(** ** LoopPlugin.compute: claims *)

Section LoopClaims.

Context {ftype V : Type}.
Variable zero : ftype → V.
Variable coerce : ftype → V → res V.
Variable merge_arrs : list (list (odict V)) → list (odict V).
Variable split_by_containment :
  list (odict V) → list (odict V) → list (list (odict V)).
Variable self : @StraxPlugin ftype.
Variable compute_loop :
  odict V → odict (list (odict V)) → res (odict V).

Implicit Types (dt : list (string * ftype)) (row r : odict V)
  (results base : list (odict V)).

Lemma od_get_set {A : Type} (m : odict A) k k' v :
  od_get k (od_set k' v m) = if decide (k = k') then Some v else od_get k m.
Proof.
  induction m as [|[x y] m IH]; cbn [od_set od_get].
  - by destruct (decide (k = k')).
  - destruct (decide (k' = x)) as [->|Hne]; cbn [od_get].
    + by destruct (decide (k = x)).
    + rewrite IH. destruct (decide (k = x)) as [->|]; last done.
      by rewrite decide_False.
Qed.

Lemma od_get_fresh {A : Type} (m : odict A) k : k ∉ m.*1 → od_get k m = None.
Proof.
  induction m as [|[x y] m IH]; intros Hk; first done.
  cbn [od_get]. rewrite decide_False by set_solver. apply IH. set_solver.
Qed.

Lemma od_get_zero_record dt f :
  od_get f (zero_record zero dt) = zero <$> od_get f dt.
Proof.
  induction dt as [|[x ty] dt IH]; first done.
  cbn [zero_record fmap list_fmap od_get fst snd].
  destruct (decide (f = x)); first done. apply IH.
Qed.

(** Writing a callback's mapping touches row [i] only, sets the fields the
    mapping names and keeps the others. *)
Lemma write_row_spec dt i r : ∀ results row,
  results !! i = Some row → Forall (storable coerce dt) r → NoDup r.*1 →
  ∃ row', write_row coerce dt i r results = Ok (<[i := row']> results) ∧
    ∀ f, match od_get f r with
         | Some v => ∃ ty v', od_get f dt = Some ty ∧ coerce ty v = Ok v' ∧
                              od_get f row' = Some v'
         | None => od_get f row' = od_get f row
         end.
Proof.
  induction r as [|[k v] r IH]; intros results row Hrow Hst Hnd.
  - exists row. cbn [write_row od_get]. by rewrite list_insert_id.
  - apply Forall_cons in Hst as [(ty & v' & Hty & Hv') Hst].
    cbn [fmap list_fmap fst] in Hnd. apply NoDup_cons in Hnd as [Hk Hnd].
    simpl in Hty, Hv'.
    assert (i < length results) as Hi by by eapply lookup_lt_Some.
    destruct (IH (<[i := od_set k v' row]> results) (od_set k v' row))
      as (row' & Hw & Hf); try done.
    { by rewrite list_lookup_insert_eq. }
    exists row'. split.
    + cbn [write_row]. unfold setfield, index. rewrite Hrow.
      cbn [mbind res_bind]. rewrite Hty, Hv'. cbn [mbind res_bind].
      by rewrite Hw, list_insert_insert_eq.
    + intros f. specialize (Hf f). cbn [od_get].
      destruct (decide (f = k)) as [->|Hne].
      * rewrite (od_get_fresh r k Hk) in Hf.
        rewrite od_get_set, decide_True in Hf by done. eauto.
      * destruct (od_get f r); first done.
        by rewrite od_get_set, decide_False in Hf.
Qed.

Lemma merge_kinds_keys kwargs deps_by_kind : ∀ acc things_by_kind,
  merge_kinds merge_arrs kwargs deps_by_kind acc = Ok things_by_kind →
  ∀ k, k ∈ od_keys deps_by_kind ∨ is_Some (od_get k acc) →
       is_Some (od_get k things_by_kind).
Proof.
  induction deps_by_kind as [|[k' deps] m IH];
    intros acc tbk Hm k Hk; cbn [merge_kinds] in Hm.
  - injection Hm as <-. destruct Hk as [Hk|]; [set_solver | done].
  - destruct (kwargs_of kwargs deps) as [arrs|] eqn:E; last done.
    cbn [mbind res_bind] in Hm. eapply IH; first exact Hm.
    rewrite od_get_set. unfold od_keys in *.
    destruct (decide (k = k')) as [->|Hne]; first (right; eauto).
    destruct Hk as [Hk|Hk]; [left; set_solver | by right].
Qed.

Lemma od_get_split_kinds lo base (things_by_kind : odict (list (odict V))) k :
  k ≠ lo →
  od_get k (split_kinds split_by_containment lo base things_by_kind)
  = (λ things, split_by_containment things base) <$> od_get k things_by_kind.
Proof.
  intros Hk. unfold split_kinds.
  induction things_by_kind as [|[x things] m IH]; first done.
  cbn [omap list_omap fst snd od_get].
  destruct (decide (x ≠ lo)) as [Hx|Hx]; cbn [od_get].
  - destruct (decide (k = x)); [done | apply IH].
  - rewrite decide_False; first apply IH.
    intros ->. by apply Hx.
Qed.

Lemma row_kwargs_total lo (split : odict (list (list (odict V)))) i kinds :
  (∀ k, k ∈ kinds → k ≠ lo →
        ∃ parts, od_get k split = Some parts ∧ i < length parts) →
  ∀ acc, ∃ sub, row_kwargs lo split i kinds acc = Ok sub.
Proof.
  induction kinds as [|k kinds IH]; intros Hk acc; first by eexists.
  cbn [row_kwargs]. destruct (decide (k ≠ lo)) as [Hne|_].
  - destruct (Hk k) as (parts & Hp & Hi); [set_solver | done |].
    unfold od_getitem, index. rewrite Hp. cbn [mbind res_bind].
    destruct (lookup_lt_is_Some_2 parts i Hi) as [part ->].
    cbn [mbind res_bind]. apply IH. set_solver.
  - apply IH. set_solver.
Qed.

(** The row loop over the indices [idx], started on records that are
    still zero at those indices. *)
Lemma fill_rows_spec dt lo base (split : odict (list (list (odict V))))
    kinds idx : ∀ results,
  NoDup idx → (∀ i, i ∈ idx → i < length base) →
  length results = length base →
  (∀ i, i ∈ idx → results !! i = Some (zero_record zero dt)) →
  (∀ i, i ∈ idx → ∃ sub, row_kwargs lo split i kinds [] = Ok sub) →
  (∀ i b sub, i ∈ idx → base !! i = Some b →
     row_kwargs lo split i kinds [] = Ok sub →
     callback_fills coerce dt compute_loop b sub) →
  ∃ results',
    fill_rows coerce compute_loop dt lo base split kinds idx results
      = Ok results' ∧
    length results' = length base ∧
    (∀ i, i ∉ idx → results' !! i = results !! i) ∧
    ∀ i b, i ∈ idx → base !! i = Some b →
      ∃ sub r row,
        row_kwargs lo split i kinds [] = Ok sub ∧
        compute_loop b sub = Ok r ∧ results' !! i = Some row ∧
        ∀ f ty, od_get f dt = Some ty →
          match od_get f r with
          | Some v => ∃ v', coerce ty v = Ok v' ∧ od_get f row = Some v'
          | None => od_get f row = Some (zero ty)
          end.
Proof.
  induction idx as [|i idx IH];
    intros results Hnd Hlt Hlen Hzero Hsub Hcb.
  - exists results. split_and!; try done. intros i b Hi. set_solver.
  - apply NoDup_cons in Hnd as [Hi Hnd].
    destruct (lookup_lt_is_Some_2 base i) as [b Hb]; first (apply Hlt; set_solver).
    destruct (Hsub i) as [sub Hs]; first set_solver.
    destruct (Hcb i b sub) as (r & Hr & Hrnd & Hst); [set_solver | done.. |].
    destruct (write_row_spec dt i r results (zero_record zero dt))
      as (row' & Hw & Hf); try done.
    { apply Hzero. set_solver. }
    destruct (IH (<[i := row']> results)) as (results' & Hfill & Hl' & Hout & Hin);
      try done.
    { intros j Hj. apply Hlt. set_solver. }
    { by rewrite length_insert. }
    { intros j Hj. rewrite list_lookup_insert_ne by set_solver.
      apply Hzero. set_solver. }
    { intros j Hj. apply Hsub. set_solver. }
    { intros j bj subj Hj. apply Hcb. set_solver. }
    exists results'. split_and!; try done.
    + cbn [fill_rows]. unfold index. rewrite Hb. cbn [mbind res_bind].
      rewrite Hs. cbn [mbind res_bind]. rewrite Hr. cbn [mbind res_bind].
      rewrite Hw. cbn [mbind res_bind]. done.
    + intros j Hj. rewrite Hout by set_solver.
      rewrite list_lookup_insert_ne by set_solver. done.
    + intros j bj Hj Hbj. apply elem_of_cons in Hj as [->|Hj];
        last by apply Hin.
      assert (bj = b) as -> by congruence.
      exists sub, r, row'. split_and!; try done.
      * rewrite Hout by done. apply list_lookup_insert_eq.
        rewrite Hlen. apply Hlt. set_solver.
      * intros f ty Hty. specialize (Hf f). destruct (od_get f r) as [v|].
        -- destruct Hf as (ty' & v' & Hty' & Hv' & Hrow).
           assert (ty' = ty) as -> by congruence. eauto.
        -- by rewrite Hf, od_get_zero_record, Hty.
Qed.

(** C6. On a batch for which the steps before the row loop succeed
    (loop kind [lo], classification, per-kind merge with [base] the merged
    array of the loop kind, output dtype [dt]), with a partition that has
    one part per base row and a callback that, on each base row with the
    keyword arguments the loop passes for that row, returns a mapping that
    can be stored, [compute] returns an array with exactly one record per
    base row; the record at index [i] holds, for every field the
    callback's mapping for base row [i] names, the value of the mapping
    converted to the field's type, and the zero of its type for every
    other field.  Nothing is asked of the callback on other keyword
    arguments. *)
Theorem loop_compute_one_record_per_base_row
    kwargs lo deps_by_kind things_by_kind base dt :
  loop_kind self = Ok lo →
  dependencies_by_kind self true = Ok deps_by_kind →
  merge_kinds merge_arrs kwargs deps_by_kind [] = Ok things_by_kind →
  od_get lo things_by_kind = Some base →
  plugin_dtype self = Some dt →
  (∀ things, length (split_by_containment things base) = length base) →
  (∀ i b sub, base !! i = Some b →
     row_kwargs lo (split_kinds split_by_containment lo base things_by_kind)
                i (od_keys deps_by_kind) [] = Ok sub →
     callback_fills coerce dt compute_loop b sub) →
  ∃ results,
    LoopPlugin_compute zero coerce merge_arrs split_by_containment self
                       compute_loop kwargs = Ok results ∧
    length results = length base ∧
    ∀ i b, base !! i = Some b →
      ∃ sub r row,
        row_kwargs lo
          (split_kinds split_by_containment lo base things_by_kind)
          i (od_keys deps_by_kind) [] = Ok sub ∧
        compute_loop b sub = Ok r ∧ results !! i = Some row ∧
        ∀ f ty, od_get f dt = Some ty →
          match od_get f r with
          | Some v => ∃ v', coerce ty v = Ok v' ∧ od_get f row = Some v'
          | None => od_get f row = Some (zero ty)
          end.
Proof.
  intros Hlo Hdbk Hm Hbase Hdt Hsplit Hcb.
  destruct (fill_rows_spec dt lo base
              (split_kinds split_by_containment lo base things_by_kind)
              (od_keys deps_by_kind) (seq 0 (length base))
              (np_zeros zero (length base) dt))
    as (results & Hfill & Hlen & _ & Hrows); try done.
  - apply NoDup_seq.
  - intros i Hi. apply elem_of_seq in Hi. lia.
  - unfold np_zeros. by rewrite length_replicate.
  - intros i Hi. apply elem_of_seq in Hi.
    unfold np_zeros. apply lookup_replicate_2. lia.
  - intros i Hi. apply elem_of_seq in Hi. apply row_kwargs_total.
    intros k Hk Hne. rewrite od_get_split_kinds by done.
    destruct (merge_kinds_keys _ _ _ _ Hm k (or_introl Hk)) as [things ->].
    eexists. split; first done. rewrite Hsplit. lia.
  - intros i b sub _. apply Hcb.
  - exists results. split_and!; try done.
    + unfold LoopPlugin_compute, od_getitem, getattr_dtype.
      rewrite Hlo, Hdbk. cbn [mbind res_bind].
      rewrite Hm. cbn [mbind res_bind].
      rewrite Hbase. cbn [mbind res_bind]. rewrite Hdt. done.
    + intros i b Hb. apply Hrows; last done.
      apply elem_of_seq. apply lookup_lt_Some in Hb. lia.
Qed.

End LoopClaims.

(** ** Construction: claims *)

Section ConstructionClaims.

Context {ftype : Type}.
Variable self : @StraxPlugin ftype.

(** C7, as amended.  The constructor of a LoopPlugin raises its
    [ValueError] exactly when the plugin has no [depends_on] attribute;
    with the attribute present, whatever it lists, construction
    succeeds.  The constructor sees the declarations only. *)
Theorem LoopPlugin_init_requires_declaration :
  (depends_on self = None ↔
   @LoopPlugin_init ftype self
   = Raise (ValueError "depends_on is mandatory for LoopPlugin")) ∧
  (is_Some (depends_on self) ↔ @LoopPlugin_init ftype self = Ok tt).
Proof.
  unfold LoopPlugin_init.
  destruct (depends_on self) as [ds|]; (split; split); intros H;
    try done; try by eexists.
Qed.

End ConstructionClaims.

(** ** Worked examples *)

Import Examples.

Ltac evaluated := vm_compute; reflexivity.
Ltac all_resolved := unfold resolved; repeat constructor; by eexists.

(** Peaks with time and hits without: the classifier names hits, and
    [iter] pulls nothing. *)
Lemma classify_fails_naming_untimed_kind_witness :
  dependencies_by_kind peaks_and_untimed_hits true
    = Raise (ValueError "No dependency of data kind hits has time information!")
  ∧ final_iters (iter ex_fixed_length_chunks ex_sync_iters
                      peaks_and_untimed_hits ex_compute peak_iters None
                      (Some ex_executor) 5) = peak_iters.
Proof.
  destruct (classify_fails_naming_untimed_kind
              ex_fixed_length_chunks ex_sync_iters peaks_and_untimed_hits
              ["peak_basics"; "hit_info"] "hits" ex_compute peak_iters None
              (Some ex_executor) 5)
    as (k0 & _ & _ & Hfirst & _ & Hraise & Hiter).
  - reflexivity.
  - all_resolved.
  - vm_compute. set_solver.
  - evaluated.
  - assert (k0 = "hits") as -> by (vm_compute in Hfirst; congruence).
    split; [exact Hraise | by rewrite Hiter].
Defined.

(** With neither peaks nor hits timed, the message names peaks only. *)
Lemma untimed_peaks_and_hits_message :
  dependencies_by_kind untimed_peaks_and_hits true
  = Raise (ValueError "No dependency of data kind peaks has time information!").
Proof. evaluated. Qed.

(** C1, counterexample.  Hits is a kind of the plugin without any
    time-bearing dependency, and the error does not name it. *)
Lemma classify_names_first_untimed_kind_only :
  ¬ ("hits" ∈ kinds_in_order untimed_peaks_and_hits
                 ["peak_classification"; "hit_info"] →
     lacks_time untimed_peaks_and_hits
                ["peak_classification"; "hit_info"] "hits" →
     dependencies_by_kind untimed_peaks_and_hits true
     = Raise (ValueError (no_time_msg "hits"))).
Proof.
  intros Hclaim.
  assert (dependencies_by_kind untimed_peaks_and_hits true
          = Raise (ValueError (no_time_msg "hits"))) as Hraise.
  { apply Hclaim; [vm_compute; set_solver | evaluated]. }
  vm_compute in Hraise. discriminate Hraise.
Qed.

(** The time-bearing dependency stands second and is listed first. *)
Lemma classify_single_timed_first_witness :
  ∃ m, dependencies_by_kind peak_info true = Ok m ∧
       od_get "peaks" m
       = Some ["peak_basics"; "peak_classification"; "peak_positions"].
Proof.
  apply (classify_single_timed_first peak_info
           ["peak_classification"; "peak_basics"; "peak_positions"]
           "peaks" ["peak_classification"] "peak_basics" ["peak_positions"]).
  - reflexivity.
  - all_resolved.
  - evaluated.
  - vm_compute. exact I.
  - evaluated.
  - unfold every_kind_timed. vm_compute. repeat constructor. discriminate.
Defined.

(** Two time-bearing dependencies: the later one is listed first. *)
Lemma classify_latest_timed_first_witness :
  ∃ m, dependencies_by_kind peak_summary true = Ok m ∧
       od_get "peaks" m
       = Some ["peaks"; "peak_basics"; "peak_classification"].
Proof.
  apply (classify_latest_timed_first peak_summary
           ["peak_basics"; "peak_classification"; "peaks"]
           "peaks" ["peak_basics"] "peaks").
  - reflexivity.
  - all_resolved.
  - evaluated.
  - discriminate.
  - unfold every_kind_timed. vm_compute. repeat constructor. discriminate.
Defined.


(** Marked [multiprocess] and given an executor: both outputs are the
    handles of submissions, in batch order.  Without an executor, the
    LoopPlugin's output is the result of its [compute] on the batch. *)
Lemma iter_dispatches_iff_multiprocess_and_executor_witness :
  yielded (iter ex_fixed_length_chunks ex_sync_iters
                classified_peaks_off_thread ex_compute peak_iters None
                (Some ex_executor) 3) !! 1
  = Some (inr [("peak_basics", [3]); ("peak_classification", [3])])
  ∧ yielded (iter ex_rechunk_arrays ex_sync_iters_arrays event_info
                  event_info_compute event_iters None
                  (@None (@Executor (list (odict Z)) (list (odict Z)) unit))
                  2) !! 0
    = Some (inl [[("n_peaks", 2%Z); ("area_sum", 0%Z)];
                 [("n_peaks", 1%Z); ("area_sum", 0%Z)]]).
Proof.
  split.
  - destruct (iter_dispatches_iff_multiprocess_and_executor
                ex_fixed_length_chunks ex_sync_iters
                classified_peaks_off_thread ex_compute (Some ex_executor)
                peak_iters None ["peak_basics"; "peak_classification"]
                peak_iters 2 3)
      as (_ & Hout).
    + evaluated.
    + repeat constructor; set_solver.
    + repeat constructor; eexists; (split; [evaluated | simpl; lia]).
    + apply Exists_cons_tl, Exists_cons_hd. eexists.
      split; [evaluated | done].
    + left. split; [done | by eexists].
    + lia.
    + destruct (Hout 1) as (b & x & Hb & Hx & Hcase); first lia.
      rewrite Hx. vm_compute in Hb. injection Hb as <-.
      destruct x as [r|h]; first by destruct Hcase as [[] _].
      destruct Hcase as (_ & ex & Hex & ->). by injection Hex as <-.
  - destruct (iter_dispatches_iff_multiprocess_and_executor
                ex_rechunk_arrays ex_sync_iters_arrays event_info
                event_info_compute
                (@None (@Executor (list (odict Z)) (list (odict Z)) unit))
                event_iters None ["event_basics"; "peak_basics"] event_iters
                1 2)
      as (_ & Hout).
    + evaluated.
    + repeat constructor; set_solver.
    + repeat constructor; eexists; (split; [evaluated | simpl; lia]).
    + apply Exists_cons_hd. eexists. split; [evaluated | done].
    + right.
      assert (batches ["event_basics"; "peak_basics"] event_iters 1
              = [ex_kwargs]) as -> by evaluated.
      repeat constructor.
      exists [[("n_peaks", 2%Z); ("area_sum", 0%Z)];
              [("n_peaks", 1%Z); ("area_sum", 0%Z)]].
      evaluated.
    + lia.
    + destruct (Hout 0) as (b & x & Hb & Hx & Hcase); first lia.
      rewrite Hx. vm_compute in Hb. injection Hb as <-.
      destruct x as [r|h]; last by destruct Hcase as (? & _).
      destruct Hcase as [_ Hr]. vm_compute in Hr. by injection Hr as <-.
Defined.

(** A bound of two rows: the run is the unbounded run on the iterators
    with peak_basics alone rechunked, whose second batch has three rows
    where that of the iterators as given has two. *)
Lemma iter_rechunks_first_canonical_only_witness :
  let bounded := iter ex_fixed_length_chunks ex_sync_iters classified_peaks
                      ex_compute peak_iters (Some 2%Z) None 5 in
  bounded
  = iter (λ it _, it) ex_sync_iters classified_peaks ex_compute
         (<["peak_basics" := [[1; 2]; [3; 4]; [5]]]> peak_iters) None
         (@None (@Executor (list nat) nat unit)) 5
  ∧ yielded bounded = [inl 4; inl 3]
  ∧ yielded (iter ex_fixed_length_chunks ex_sync_iters classified_peaks
                  ex_compute peak_iters None
                  (@None (@Executor (list nat) nat unit)) 5)
    = [inl 4; inl 2].
Proof.
  destruct (iter_rechunks_first_canonical_only
              ex_fixed_length_chunks ex_sync_iters classified_peaks
              ex_compute (@None (@Executor (list nat) nat unit))
              (λ it _, it)
              ["peak_basics"; "peak_classification"]
              [("peaks", ["peak_basics"; "peak_classification"])]
              (Some 2%Z) peak_iters 5)
    as (d & rest & Hd & _ & _ & _ & Hstep).
  - reflexivity.
  - evaluated.
  - injection Hd as <- <-.
    assert (peak_iters !! "peak_basics" = Some [[1; 2]; [3]; [4; 5]]) as Hit
      by evaluated.
    rewrite Hit in Hstep. destruct Hstep as [_ Hiter].
    split_and!; [exact Hiter | evaluated | evaluated].
Defined.

(** Two events, three peaks, and a callback that fails without its peaks
    keyword: one record per event, the counted field written and the
    other field left at zero. *)
Lemma loop_compute_one_record_per_base_row_witness :
  count_given_peaks (interval 0 100) [] = Raise (KeyError "peaks") ∧
  LoopPlugin_compute (λ _, 0%Z) (λ _ v, Ok v) ex_merge_arrs
                     ex_split_by_containment event_info count_given_peaks
                     ex_kwargs
  = Ok [[("n_peaks", 2%Z); ("area_sum", 0%Z)];
        [("n_peaks", 1%Z); ("area_sum", 0%Z)]].
Proof.
  split; first reflexivity.
  destruct (loop_compute_one_record_per_base_row
              (λ _, 0%Z) (λ _ v, Ok v) ex_merge_arrs ex_split_by_containment
              event_info count_given_peaks ex_kwargs "events"
              [("events", ["event_basics"]); ("peaks", ["peak_basics"])]
              [("events", ex_events); ("peaks", ex_peaks)]
              ex_events [("n_peaks", "<i4"); ("area_sum", "<f4")])
    as (results & Hres & _).
  - evaluated.
  - evaluated.
  - evaluated.
  - evaluated.
  - reflexivity.
  - intros things. unfold ex_split_by_containment. by rewrite length_fmap.
  - intros i b sub Hb Hsub.
    destruct i as [|[|i]]; last done;
      vm_compute in Hsub; injection Hsub as <-;
      (eexists; split; first reflexivity);
      (split; first (repeat constructor; set_solver));
      repeat constructor; eexists "<i4", _; by split.
  - rewrite Hres. vm_compute in Hres. congruence.
Defined.



(** A time field and b, then c: the fields in this order. *)
Lemma merge_infer_dtype_concatenates_witness :
  MergePlugin_infer_dtype ex_repr ex_unpack_dtype tb_then_c
  = Ok [("time", "<i8"); ("b", "<f4"); ("c", "<i4")].
Proof.
  rewrite (merge_infer_dtype_concatenates
             ex_repr ex_unpack_dtype tb_then_c ["tb"; "c"]
             [[("time", "<i8"); ("b", "<f4")]; [("c", "<i4")]] "things").
  - evaluated.
  - reflexivity.
  - done.
  - repeat constructor.
  - repeat constructor.
Defined.

(** C9, counterexample.  Two dependencies of one kind with the fields a
    and b, then c: no dependency has a time field, and [infer_dtype]
    raises instead of returning the fields a, b, c. *)
Lemma merge_infer_dtype_needs_time_field :
  ¬ (Forall (λ d, dependency_kinds ab_then_c !! d = Some "things")
            ["ab"; "c"] →
     MergePlugin_infer_dtype ex_repr ex_unpack_dtype ab_then_c
     = Ok [("a", "<f4"); ("b", "<f4"); ("c", "<i4")]).
Proof.
  intros Hclaim.
  assert (MergePlugin_infer_dtype ex_repr ex_unpack_dtype ab_then_c
          = Ok [("a", "<f4"); ("b", "<f4"); ("c", "<i4")]) as Hok
    by (apply Hclaim; repeat constructor).
  vm_compute in Hok. discriminate Hok.
Qed.

(** C7, counterexample.  A LoopPlugin whose [depends_on] is the empty
    tuple declares no dependency, and its constructor does not fail. *)
Lemma LoopPlugin_init_accepts_empty_depends_on :
  ¬ ((∀ d ds, depends_on no_dependencies ≠ Some (d :: ds)) →
     ∃ e, LoopPlugin_init no_dependencies = Raise e).
Proof.
  intros Hclaim. destruct Hclaim as [e He]; first done. discriminate He.
Qed.

(** * Further properties of the code *)

(** ** The classifier *)

Section ClassifierExtras.

Context {ftype : Type}.
Variable self : @StraxPlugin ftype.

Lemma od_get_None {A : Type} (m : odict A) k : od_get k m = None ↔ k ∉ m.*1.
Proof.
  induction m as [|[x y] m IH]; cbn [od_get fmap list_fmap fst].
  - split; [intros _; apply not_elem_of_nil | done].
  - rewrite not_elem_of_cons. destruct (decide (k = x)) as [->|Hne].
    + split; [done | by intros [? _]].
    + rewrite IH. naive_solver.
Qed.

Lemma od_alter_keys {A : Type} (f : A → A) k (m : odict A) :
  (od_alter f k m).*1 = m.*1.
Proof.
  induction m as [|[x y] m IH]; first done.
  cbn [od_alter]. destruct (decide (k = x)); cbn [fmap list_fmap fst];
    [done | by rewrite IH].
Qed.

Lemma od_setdefault_keys {A : Type} k (v : A) (m : odict A) :
  (od_setdefault k v m).*1 = if decide (k ∈ m.*1) then m.*1 else m.*1 ++ [k].
Proof.
  unfold od_setdefault. destruct (od_get k m) as [a|] eqn:E.
  - rewrite decide_True; first done.
    destruct (decide (k ∈ m.*1)) as [|Hn]; first done.
    apply od_get_None in Hn. congruence.
  - rewrite decide_False by by apply od_get_None.
    by rewrite fmap_app.
Qed.

Lemma tabulate_keys {A : Type} (g : string → A) ks :
  ((λ x, (x, g x)) <$> ks).*1 = ks.
Proof. induction ks as [|x ks IH]; [done | cbn; by rewrite IH]. Qed.

Lemma concat_setdefault k (m : odict (list string)) :
  concat (od_setdefault k [] m).*2 = concat m.*2.
Proof.
  unfold od_setdefault. destruct (od_get k m); first done.
  rewrite fmap_app, concat_app. cbn. by rewrite app_nil_r.
Qed.

Lemma concat_alter (f : list string → list string) k d
    (m : odict (list string)) :
  k ∈ m.*1 → (∀ l, f l ≡ₚ d :: l) →
  concat (od_alter f k m).*2 ≡ₚ d :: concat m.*2.
Proof.
  intros Hk Hf. induction m as [|[x l] m IH];
    first by apply elem_of_nil in Hk.
  cbn [od_alter]. destruct (decide (k = x)) as [->|Hne];
    cbn [fmap list_fmap snd concat].
  - by rewrite Hf.
  - rewrite IH by set_solver. by rewrite Permutation_middle.
Qed.

Lemma classify_step_perm rt d m kd m' kd' :
  classify_step self rt d (m, kd) = Ok (m', kd') →
  concat m'.*2 ≡ₚ d :: concat m.*2.
Proof.
  unfold classify_step, getitem. intros Hs.
  destruct (dependency_kinds self !! d) as [k|]; last done.
  cbn [mbind res_bind] in Hs.
  assert (k ∈ (od_setdefault k ([] : list string) m).*1) as Hk.
  { rewrite od_setdefault_keys. case_decide; set_solver. }
  assert (∀ f, (∀ l, f l ≡ₚ d :: l) →
               concat (od_alter f k (od_setdefault k [] m)).*2
               ≡ₚ d :: concat m.*2) as Halt.
  { intros f Hf. by rewrite concat_alter, concat_setdefault. }
  destruct rt.
  - destruct (dependency_dtypes self !! d) as [dt|]; last done.
    cbn [mbind res_bind] in Hs.
    destruct (bool_decide _); injection Hs as <- _; apply Halt; intros l;
      [done | by rewrite Permutation_app_comm].
  - injection Hs as <- _. apply Halt. intros l.
    by rewrite Permutation_app_comm.
Qed.

Lemma classify_loop_perm rt ds : ∀ st st',
  classify_loop self rt ds st = Ok st' →
  concat st'.1.*2 ≡ₚ concat st.1.*2 ++ ds.
Proof.
  induction ds as [|d ds IH]; intros st st' Hl; cbn [classify_loop] in Hl.
  - injection Hl as <-. by rewrite app_nil_r.
  - destruct (classify_step self rt d st) as [[m1 kd1]|] eqn:E; last done.
    cbn [mbind res_bind] in Hl. destruct st as [m kd].
    rewrite (IH _ _ Hl). cbn [fst].
    rewrite (classify_step_perm _ _ _ _ _ _ E).
    cbn [app]. apply Permutation_middle.
Qed.

(** The loop gets through a prefix that both dictionaries know. *)
Lemma classify_loop_total (rt : bool) pre :
  Forall (λ x, is_Some (dependency_kinds self !! x) ∧
               (rt → is_Some (dependency_dtypes self !! x))) pre →
  ∀ st, ∃ st', classify_loop self rt pre st = Ok st'.
Proof.
  induction 1 as [|x pre [[k Hk] Hdt] _ IH]; intros [m kd]; first by eexists.
  cbn [classify_loop]. unfold classify_step, getitem. rewrite Hk.
  cbn [mbind res_bind]. destruct rt.
  - destruct Hdt as [dt ->]; first done. cbn [mbind res_bind].
    destruct (bool_decide _); cbn [mbind res_bind]; apply IH.
  - cbn [mbind res_bind]. apply IH.
Qed.

Lemma classify_loop_Ok_kinds rt ds : ∀ st st',
  classify_loop self rt ds st = Ok st' →
  Forall (λ d, is_Some (dependency_kinds self !! d)) ds.
Proof.
  induction ds as [|d ds IH]; intros st st' Hok; first by constructor.
  cbn [classify_loop] in Hok.
  destruct (classify_step self rt d st) as [st1|] eqn:E; last done.
  cbn [mbind res_bind] in Hok. constructor; last by eapply IH.
  unfold classify_step, getitem in E. destruct st as [m kd].
  by destruct (dependency_kinds self !! d).
Qed.

Lemma classify_step_plain ds d :
  is_Some (dependency_kinds self !! d) →
  classify_step self false d (plain_groups self ds, [])
  = Ok (plain_groups self (ds ++ [d]), []).
Proof.
  intros [k Hk]. unfold classify_step, getitem. rewrite Hk.
  cbn [mbind res_bind].
  assert (od_setdefault k [] (plain_groups self ds)
          = (λ x, (x, deps_of_kind self x ds))
              <$> kinds_in_order self (ds ++ [d])) as ->.
  { unfold plain_groups.
    rewrite od_setdefault_tabulate, (kinds_in_order_snoc _ _ _ k Hk).
    destruct (decide (k ∈ kinds_in_order self ds)) as [|Hin]; first done.
    rewrite fmap_app. cbn [fmap list_fmap]. do 3 f_equal.
    symmetry. by apply deps_of_kind_nil. }
  rewrite od_alter_tabulate by apply NoDup_nub. do 2 f_equal.
  unfold plain_groups. apply list_fmap_ext. intros i x _. f_equal.
  rewrite deps_of_kind_snoc. unfold kind_is.
  destruct (decide (x = k)) as [->|Hx].
  - by rewrite bool_decide_eq_true_2.
  - rewrite bool_decide_eq_false_2 by congruence. by rewrite app_nil_r.
Qed.

Lemma classify_loop_plain ds :
  Forall (λ d, is_Some (dependency_kinds self !! d)) ds →
  classify_loop self false ds ([], []) = Ok (plain_groups self ds, []).
Proof.
  induction ds as [|d ds IH] using rev_ind; intros Hr; first done.
  apply Forall_app in Hr as [Hr1 Hr2]. rewrite Forall_singleton in Hr2.
  rewrite classify_loop_app, (IH Hr1). cbn [mbind res_bind classify_loop].
  by rewrite (classify_step_plain _ _ Hr2).
Qed.

(** X1. The classifier raises [KeyError] for the first declared dependency
    that [dependency_kinds] does not know or, when time is required, that
    [dependency_dtypes] does not know; the dependencies declared before it
    are known. *)
Theorem classify_raises_KeyError_at_first_unknown (rt : bool) pre d post :
  depends_on self = Some (pre ++ d :: post) →
  Forall (λ x, is_Some (dependency_kinds self !! x) ∧
               (rt → is_Some (dependency_dtypes self !! x))) pre →
  dependency_kinds self !! d = None ∨
    (rt ∧ dependency_dtypes self !! d = None) →
  dependencies_by_kind self rt = Raise (KeyError d).
Proof.
  intros Hds Hpre Hd. unfold dependencies_by_kind, getattr_depends_on.
  rewrite Hds. cbn [mbind res_bind]. rewrite classify_loop_app.
  destruct (classify_loop_total rt pre Hpre ([], [])) as [[m kd] ->].
  cbn [mbind res_bind classify_loop]. unfold classify_step, getitem.
  destruct Hd as [->|[Hrt Hdt]]; first done.
  destruct (dependency_kinds self !! d); last done.
  cbn [mbind res_bind]. destruct rt; last done. by rewrite Hdt.
Qed.

(** X2. With [require_time] false the classifier never looks at the
    dtypes and raises no [ValueError]: whenever every dependency has a
    kind it returns, for each kind in order of first appearance, the
    dependencies of that kind in declaration order. *)
Theorem classify_without_time_keeps_declaration_order ds :
  depends_on self = Some ds →
  Forall (λ d, is_Some (dependency_kinds self !! d)) ds →
  dependencies_by_kind self false = Ok (plain_groups self ds).
Proof.
  intros Hds Hk. unfold dependencies_by_kind, getattr_depends_on.
  rewrite Hds. cbn [mbind res_bind].
  by rewrite (classify_loop_plain _ Hk).
Qed.

Lemma dependencies_by_kind_Ok_loop rt ds m :
  depends_on self = Some ds → dependencies_by_kind self rt = Ok m →
  ∃ kd, classify_loop self rt ds ([], []) = Ok (m, kd).
Proof.
  intros Hds Hok. unfold dependencies_by_kind, getattr_depends_on in Hok.
  rewrite Hds in Hok. cbn [mbind res_bind] in Hok.
  destruct (classify_loop self rt ds ([], [])) as [[m' kd]|]; last done.
  cbn [mbind res_bind] in Hok. exists kd. destruct rt.
  - destruct (check_time kd m'); last done. by injection Hok as ->.
  - by injection Hok as ->.
Qed.

(** X3. Whatever [require_time] is, a returned classification is a
    partition of the declared dependencies: the groups together hold
    exactly the entries of [depends_on], each as often as it is declared,
    and the keys are the kinds of the dependencies, each once, in order of
    first appearance. *)
Theorem classify_groups_partition rt ds m :
  depends_on self = Some ds → dependencies_by_kind self rt = Ok m →
  concat (od_values m) ≡ₚ ds ∧
  od_keys m = kinds_in_order self ds ∧ NoDup (od_keys m).
Proof.
  intros Hds Hok.
  destruct (dependencies_by_kind_Ok_loop _ _ _ Hds Hok) as [kd Hloop].
  split.
  - apply classify_loop_perm in Hloop. by rewrite Hloop.
  - assert (od_keys m = kinds_in_order self ds) as ->;
      last (split; [done | apply NoDup_nub]).
    destruct rt.
    + rewrite (classify_loop_buckets self ds) in Hloop
        by by eapply classify_loop_Ok_resolved.
      injection Hloop as <- _. apply tabulate_keys.
    + rewrite (classify_loop_plain ds) in Hloop
        by by eapply classify_loop_Ok_kinds.
      injection Hloop as <- _. apply tabulate_keys.
Qed.

(** X4. In a classification returned with [require_time] true, every
    group (not only the first) starts with a dependency whose schema has a
    time field, and all members of a group are declared with the group's
    kind. *)
Theorem classify_groups_start_time_bearing ds m k deps :
  depends_on self = Some ds → dependencies_by_kind self true = Ok m →
  (k, deps) ∈ m →
  (∃ d rest, deps = d :: rest ∧ time_bearing self d) ∧
  Forall (λ x, x ∈ ds ∧ dependency_kinds self !! x = Some k) deps.
Proof.
  intros Hds Hok Hin.
  pose proof (dependencies_by_kind_Ok_resolved _ _ _ Hds Hok) as Hr.
  rewrite (dependencies_by_kind_spec _ _ Hds Hr) in Hok.
  destruct (first_lacking self ds) eqn:E; first done.
  apply first_lacking_None in E. injection Hok as <-.
  unfold buckets in Hin. apply list_elem_of_fmap in Hin as (k' & Heq & Hk).
  injection Heq as -> ->. split.
  - destruct (bucket_of_head self ds k' Hk) as (d0 & rest & Hb & _ & Ht).
    exists d0, rest. split; first done. apply Ht.
    unfold every_kind_timed in E. rewrite Forall_forall in E. by apply E.
  - apply Forall_forall. intros x Hx. unfold bucket_of in Hx.
    apply elem_of_app in Hx as [Hx|Hx].
    + apply elem_of_reverse, list_elem_of_filter in Hx as [_ Hx].
      by apply elem_of_deps_of_kind in Hx.
    + apply list_elem_of_filter in Hx as [_ Hx].
      by apply elem_of_deps_of_kind in Hx.
Qed.

End ClassifierExtras.

(** ** The streaming loop, at its edges *)

Section IterExtras.

Context {ftype chunk R handle : Type}.
Variable fixed_length_chunks : list chunk → Z → list chunk.
Variable sync_iters : sync_fn → odict (list chunk) → odict (list chunk).
Variable self : @StraxPlugin ftype.
Variable compute : odict chunk → res R.
Variable executor : option (@Executor chunk R handle).

Implicit Types (iters : gmap string (list chunk)).

Lemma next_batch_app ds1 ds2 : ∀ (acc : odict chunk) iters,
  next_batch (ds1 ++ ds2) acc iters
  = match next_batch ds1 acc iters with
    | (Batch acc', iters') => next_batch ds2 acc' iters'
    | other => other
    end.
Proof.
  induction ds1 as [|d ds1 IH]; intros acc iters; first done.
  cbn [app next_batch].
  destruct (iters !! d) as [[|c rest]|]; first [done | apply IH].
Qed.

(** A prefix of dependencies that all have a chunk is pulled from. *)
Lemma next_batch_prefix pre rest iters :
  NoDup pre →
  Forall (λ x, ∃ its, iters !! x = Some its ∧ 1 ≤ length its) pre →
  ∃ b iters', next_batch (pre ++ rest) [] iters = next_batch rest b iters' ∧
              advanced pre iters iters'.
Proof.
  intros Hnd Hpre.
  destruct (next_batch_full pre [] iters) as (b & iters' & Hnb & _ & Hadv);
    try done.
  { intros x _. apply not_elem_of_nil. }
  exists b, iters'. split; last done.
  by rewrite next_batch_app, Hnb.
Qed.

Lemma not_in_nonempty_prefix pre d iters :
  Forall (λ x, ∃ its, iters !! x = Some its ∧ 1 ≤ length its) pre →
  iters !! d = Some [] ∨ iters !! d = None → d ∉ pre.
Proof.
  intros Hpre Hd Hin. rewrite Forall_forall in Hpre.
  destruct (Hpre d Hin) as (its & Hits & Hlen).
  destruct Hd as [Hd|Hd]; rewrite Hd in Hits; simplify_eq. simpl in Hlen. lia.
Qed.

(** X5. When a dependency is found exhausted while a batch is assembled,
    the loop returns without an output, and the chunks already taken for
    that batch from the dependencies declared before it are gone: those
    iterators have advanced by one chunk, all others are as they were. *)
Theorem pull_loop_drops_partial_batch pre d post iters fuel :
  NoDup pre →
  Forall (λ x, ∃ its, iters !! x = Some its ∧ 1 ≤ length its) pre →
  iters !! d = Some [] →
  ∃ iters',
    pull_loop self compute executor (pre ++ d :: post) (S fuel) iters
    = {| yielded := []; ended := Returned; final_iters := iters' |} ∧
    advanced pre iters iters'.
Proof.
  intros Hnd Hpre Hd.
  destruct (next_batch_prefix pre (d :: post) iters Hnd Hpre)
    as (b & iters' & Hnb & Hadv).
  exists iters'. split; last done.
  cbn [pull_loop]. rewrite Hnb. cbn [next_batch].
  rewrite (Hadv d), decide_False, Hd; first done.
  eapply not_in_nonempty_prefix; eauto.
Qed.

Lemma emit_all_prefix (f : odict chunk → res (R + handle)) pre b post e :
  Forall (λ b', ∃ x, f b' = Ok x) pre → f b = Raise e →
  ∃ xs, emit_all f (pre ++ b :: post) = (xs, Raised e) ∧
        Forall2 (λ b' x, f b' = Ok x) pre xs.
Proof.
  intros Hpre Hb. induction Hpre as [|b' pre [x Hx] _ (xs & Hxs & Hall)].
  - exists []. cbn [app emit_all]. by rewrite Hb.
  - exists (x :: xs). cbn [app emit_all]. rewrite Hx, Hxs.
    split; [done | by constructor].
Qed.

Lemma inline_outputs (f : odict chunk → res (R + handle)) bs xs :
  (∀ b, f b = match compute b with
              | Ok r => Ok (inl r) | Raise e => Raise e end) →
  Forall2 (λ b x, f b = Ok x) bs xs →
  ∃ rs, xs = inl <$> rs ∧ Forall2 (λ b r, compute b = Ok r) bs rs.
Proof.
  intros Hf. induction 1 as [|b x bs xs Hx _ (rs & -> & Hrs)].
  - exists []. by split.
  - rewrite Hf in Hx. destruct (compute b) as [r|] eqn:Er; last done.
    injection Hx as <-. exists (r :: rs). split; [done | by constructor].
Qed.

(** X7. When [compute] raises on a batch, inline, the stream ends with
    that exception after the outputs of the batches before it, in
    order; no later batch is computed. *)
Theorem pull_loop_stops_at_failing_compute
    ds n iters fuel pre b post e :
  NoDup ds →
  Forall (λ d, ∃ its, iters !! d = Some its ∧ n ≤ length its) ds →
  Exists (λ d, ∃ its, iters !! d = Some its ∧ length its = n) ds →
  n < fuel →
  batches ds iters n = pre ++ b :: post →
  ¬ (multiprocess self = true ∧ is_Some executor) →
  Forall (λ b', ∃ r, compute b' = Ok r) pre → compute b = Raise e →
  ∃ rs, Forall2 (λ b' r, compute b' = Ok r) pre rs ∧
    yielded (pull_loop self compute executor ds fuel iters) = inl <$> rs ∧
    ended (pull_loop self compute executor ds fuel iters) = Raised e.
Proof.
  intros Hnd Hall Hex Hfuel Hbs Hinline Hpre Hb.
  destruct (pull_loop_spec self compute executor ds n iters fuel)
    as [Hy _]; try done.
  assert (∀ b', emit self compute executor b'
                = match compute b' with
                  | Ok r => Ok (inl r) | Raise e' => Raise e' end) as Hemit.
  { intros b'. unfold emit.
    destruct (multiprocess self) eqn:Emp, executor as [ex|] eqn:Eex;
      try done.
    exfalso. apply Hinline. split; [done | by eexists]. }
  destruct (emit_all_prefix (emit self compute executor) pre b post e)
    as (xs & Hxs & Hf2).
  - eapply Forall_impl; first exact Hpre.
    intros b' [r Hr]. rewrite Hemit, Hr. by eexists.
  - by rewrite Hemit, Hb.
  - rewrite Hbs, Hxs in Hy. injection Hy as -> ->.
    destruct (inline_outputs _ _ _ Hemit Hf2) as (rs & -> & Hrs).
    by exists rs.
Qed.

End IterExtras.

(** ** Before the loop, and plugins with one or no dependency *)

Section PrepareExtras.

Context {ftype chunk R handle : Type}.
Variable fixed_length_chunks : list chunk → Z → list chunk.
Variable sync_iters : sync_fn → odict (list chunk) → odict (list chunk).
Variable self : @StraxPlugin ftype.
Variable compute : odict chunk → res R.
Variable executor : option (@Executor chunk R handle).

Implicit Types (iters : gmap string (list chunk)).

Lemma prepare_no_dependencies n_per_iter iters :
  depends_on self = Some [] →
  prepare fixed_length_chunks sync_iters self n_per_iter iters
  = (Ok [], iters).
Proof.
  intros Hds. unfold prepare, lift, dependencies_by_kind, getattr_depends_on.
  rewrite Hds. by destruct n_per_iter.
Qed.

Lemma pull_loop_no_dependencies fuel iters :
  pull_loop self compute executor [] fuel iters
  = match emit self compute executor [] with
    | Ok x => {| yielded := replicate fuel x; ended := OutOfFuel;
                 final_iters := iters |}
    | Raise e =>
        match fuel with
        | O => {| yielded := []; ended := OutOfFuel; final_iters := iters |}
        | S _ => {| yielded := []; ended := Raised e; final_iters := iters |}
        end
    end.
Proof.
  induction fuel as [|fuel IH].
  - by destruct (emit self compute executor []).
  - cbn [pull_loop next_batch]. rewrite IH. unfold emit.
    destruct (multiprocess self), executor as [ex|];
      try destruct (compute []); done.
Qed.

(** X8. A plugin that declares no dependency never ends its stream: every
    batch is the empty one, so as long as [compute] (or the submission)
    succeeds on it, each turn of the loop yields the same output again,
    whatever number of turns is allowed, and no iterator is touched. *)
Theorem iter_without_dependencies_never_returns n_per_iter iters fuel x :
  depends_on self = Some [] →
  emit self compute executor [] = Ok x →
  iter fixed_length_chunks sync_iters self compute iters n_per_iter
       executor fuel
  = {| yielded := replicate fuel x; ended := OutOfFuel;
       final_iters := iters |}.
Proof.
  intros Hds Hx. unfold iter.
  rewrite (prepare_no_dependencies _ _ Hds), pull_loop_no_dependencies.
  by rewrite Hx.
Qed.

(** X9. A placeholder (no dependency, [compute] as in PlaceholderPlugin,
    not marked [multiprocess]) raises [NotImplementedError] naming what
    it provides as soon as its stream is asked for an output: nothing is
    yielded and no iterator is touched. *)
Theorem iter_placeholder_raises_NotImplementedError
    n_per_iter iters fuel provides :
  depends_on self = Some [] → multiprocess self = false →
  compute [] = PlaceholderPlugin_compute provides →
  iter fixed_length_chunks sync_iters self compute iters n_per_iter
       executor (S fuel)
  = {| yielded := [];
       ended := Raised (NotImplementedError
                  ("No plugin registered that provides " +:+ provides));
       final_iters := iters |}.
Proof.
  intros Hds Hmp Hc. unfold iter.
  rewrite (prepare_no_dependencies _ _ Hds), pull_loop_no_dependencies.
  unfold emit. by rewrite Hmp, Hc.
Qed.

Lemma dependencies_by_kind_single d k :
  depends_on self = Some [d] → dependency_kinds self !! d = Some k →
  time_bearing self d →
  dependencies_by_kind self true = Ok [(k, [d])].
Proof.
  intros Hds Hk Ht. unfold dependencies_by_kind, getattr_depends_on.
  rewrite Hds. cbn [mbind res_bind classify_loop].
  unfold classify_step, getitem. rewrite Hk. cbn [mbind res_bind].
  unfold time_bearing in Ht.
  destruct (dependency_dtypes self !! d) as [dt|]; last done.
  cbn [mbind res_bind]. destruct (bool_decide _); last done.
  cbn [mbind res_bind od_setdefault od_get app od_alter].
  rewrite decide_True by done. cbn [check_time].
  by rewrite bool_decide_eq_true_2 by set_solver.
Qed.

Lemma prepare_single d k its n_per_iter iters :
  depends_on self = Some [d] → dependency_kinds self !! d = Some k →
  time_bearing self d → iters !! d = Some its →
  prepare fixed_length_chunks sync_iters self n_per_iter iters
  = (Ok [d],
     match n_per_iter with
     | Some n => <[d := fixed_length_chunks its n]> iters
     | None => iters
     end).
Proof.
  intros Hds Hk Ht Hits. unfold prepare, lift.
  rewrite (dependencies_by_kind_single _ _ Hds Hk Ht).
  unfold getattr_depends_on. rewrite Hds.
  unfold mbind, M_bind, flow_control, sync_kinds.
  destruct n_per_iter as [n|]; last done.
  unfold mbind, M_bind, lift, iters_getitem, iters_setitem, getitem.
  cbn [first_of]. by rewrite Hits.
Qed.

Lemma pull_loop_single d : ∀ chunks iters fuel,
  iters !! d = Some chunks →
  ¬ (multiprocess self = true ∧ is_Some executor) →
  (∀ c, c ∈ chunks → ∃ r, compute [(d, c)] = Ok r) →
  length chunks < fuel →
  ∃ rs, Forall2 (λ c r, compute [(d, c)] = Ok r) chunks rs ∧
    pull_loop self compute executor [d] fuel iters
    = {| yielded := inl <$> rs; ended := Returned;
         final_iters := <[d := []]> iters |}.
Proof.
  induction chunks as [|c chunks IH]; intros iters fuel Hits Hinl Hc Hfuel;
    (destruct fuel as [|fuel]; first (simpl in Hfuel; lia));
    cbn [pull_loop next_batch]; rewrite Hits.
  - exists []. split; first done. by rewrite insert_id.
  - cbn [od_set]. destruct (Hc c) as [r Hr]; first set_solver.
    destruct (IH (<[d := chunks]> iters) fuel) as (rs & Hrs & Hloop);
      try done.
    { by rewrite lookup_insert_eq. }
    { intros c' Hc'. apply Hc. set_solver. }
    { simpl in Hfuel. lia. }
    exists (r :: rs). split; first by constructor.
    rewrite Hloop, Hr, insert_insert_eq.
    destruct (multiprocess self) eqn:Emp, executor as [ex|] eqn:Eex;
      try done.
    exfalso. apply Hinl. split; [done | by eexists].
Qed.

(** X10. A plugin with a single dependency [d], one with a time field,
    computes inline the chunks of [iters[d]] one by one, in order, after
    rechunking them when a bound is configured; no alignment pass runs.
    It yields one result per chunk, returns, and leaves the iterator of
    [d] exhausted and every other entry of [iters] as it was. *)
Theorem iter_single_dependency_maps_compute
    d k its n_per_iter iters fuel :
  depends_on self = Some [d] → dependency_kinds self !! d = Some k →
  time_bearing self d → iters !! d = Some its →
  let chunks := match n_per_iter with
                | Some n => fixed_length_chunks its n
                | None => its
                end in
  ¬ (multiprocess self = true ∧ is_Some executor) →
  (∀ c, c ∈ chunks → ∃ r, compute [(d, c)] = Ok r) →
  length chunks < fuel →
  ∃ rs, Forall2 (λ c r, compute [(d, c)] = Ok r) chunks rs ∧
    iter fixed_length_chunks sync_iters self compute iters n_per_iter
         executor fuel
    = {| yielded := inl <$> rs; ended := Returned;
         final_iters := <[d := []]> iters |}.
Proof.
  intros Hds Hk Ht Hits chunks Hinl Hc Hfuel. unfold iter.
  rewrite (prepare_single _ _ _ _ _ Hds Hk Ht Hits).
  destruct n_per_iter as [n|].
  - destruct (pull_loop_single d chunks
                (<[d := fixed_length_chunks its n]> iters) fuel)
      as (rs & Hrs & ->); try done.
    { by rewrite lookup_insert_eq. }
    exists rs. by rewrite insert_insert_eq.
  - destruct (pull_loop_single d chunks iters fuel) as (rs & Hrs & ->);
      try done.
    by exists rs.
Qed.

End PrepareExtras.

(** ** What the alignment steps touch and call *)

Section AlignmentExtras.

Context {ftype chunk : Type}.
Variable fixed_length_chunks : list chunk → Z → list chunk.
Variable self : @StraxPlugin ftype.

#[local] Existing Instance M_ret.
#[local] Existing Instance M_bind.

Implicit Types (iters : gmap string (list chunk)) (names : list string).

Lemma od_set_keys {A : Type} (m : odict A) k v x :
  x ∈ (od_set k v m).*1 ↔ x = k ∨ x ∈ m.*1.
Proof.
  induction m as [|[k' v'] m IH]; cbn [od_set].
  - set_solver.
  - destruct (decide (k = k')) as [->|Hne]; cbn [fmap list_fmap fst].
    + set_solver.
    + rewrite !elem_of_cons, IH. naive_solver.
Qed.

Lemma elem_of_concat {A : Type} (ls : list (list A)) x :
  x ∈ concat ls ↔ ∃ l, l ∈ ls ∧ x ∈ l.
Proof.
  induction ls as [|l ls IH]; cbn [concat].
  - set_solver.
  - rewrite elem_of_app, IH. set_solver.
Qed.

Lemma iters_update_other (new : odict (list chunk)) x : ∀ iters,
  x ∉ new.*1 →
  foldl (λ acc kv, <[kv.1 := kv.2]> acc) iters new !! x = iters !! x.
Proof.
  induction new as [|[k v] new IH]; intros iters Hx; first done.
  cbn [foldl fst snd]. rewrite IH by set_solver.
  apply lookup_insert_ne. set_solver.
Qed.

(** Building the dictionary of key iterators reads [iters] only. *)
Lemma key_iters_reads groups : ∀ (acc : odict (list chunk)) iters r iters',
  key_iters groups acc iters = (r, iters') →
  iters' = iters ∧
  ∀ sel, r = Ok sel →
    ∀ x, x ∈ sel.*1 → x ∈ acc.*1 ∨ ∃ g, g ∈ groups ∧ head g = Some x.
Proof.
  induction groups as [|g groups IH]; intros acc iters r iters' Hk;
    cbn [key_iters] in Hk.
  - injection Hk as <- <-. split; first done. intros sel [= <-]. eauto.
  - unfold mbind, M_bind, lift, iters_getitem, getitem in Hk.
    destruct g as [|d0 g]; cbn [first_of] in Hk.
    { injection Hk as <- <-. by split. }
    destruct (iters !! d0) as [it|]; last first.
    { injection Hk as <- <-. by split. }
    destruct (IH _ _ _ _ Hk) as [-> Hsel]. split; first done.
    intros sel Hr x Hx. destruct (Hsel sel Hr x Hx) as [Hacc|(g' & Hg & Hh)].
    + apply od_set_keys in Hacc as [->|Hacc]; last by left.
      right. exists (d0 :: g). split; [set_solver | done].
    + right. exists g'. split; [set_solver | done].
Qed.

Lemma dep_iters_reads deps : ∀ (acc : odict (list chunk)) iters r iters',
  dep_iters deps acc iters = (r, iters') →
  iters' = iters ∧
  ∀ sel, r = Ok sel → ∀ x, x ∈ sel.*1 → x ∈ acc.*1 ∨ x ∈ deps.
Proof.
  induction deps as [|d deps IH]; intros acc iters r iters' Hk;
    cbn [dep_iters] in Hk.
  - injection Hk as <- <-. split; first done. intros sel [= <-]. eauto.
  - unfold mbind, M_bind, iters_getitem, getitem in Hk.
    destruct (iters !! d) as [it|]; last first.
    { injection Hk as <- <-. by split. }
    destruct (IH _ _ _ _ Hk) as [-> Hsel]. split; first done.
    intros sel Hr x Hx. destruct (Hsel sel Hr x Hx) as [Hacc|Hd].
    + apply od_set_keys in Hacc as [->|Hacc]; [right | left]; set_solver.
    + right. set_solver.
Qed.

Section WithSync.

Variable sync_iters : sync_fn → odict (list chunk) → odict (list chunk).
Hypothesis sync_keys : ∀ f sel x, x ∈ (sync_iters f sel).*1 → x ∈ sel.*1.

Lemma flow_control_touches names deps_by_kind n_per_iter :
  (∀ g, g ∈ od_values deps_by_kind → ∀ x, x ∈ g → x ∈ names) →
  touches_only names (flow_control fixed_length_chunks deps_by_kind n_per_iter).
Proof.
  intros Hn iters r iters' Hf x Hx. unfold flow_control in Hf.
  destruct n_per_iter as [n|]; last by injection Hf as _ <-.
  destruct deps_by_kind as [|[k deps] rest]; first by injection Hf as _ <-.
  unfold mbind, M_bind, lift, iters_getitem, iters_setitem, getitem in Hf.
  destruct deps as [|d deps]; cbn [first_of] in Hf;
    first by injection Hf as _ <-.
  destruct (iters !! d); injection Hf as _ <-; last done.
  apply lookup_insert_ne. intros Heq. apply Hx. rewrite <- Heq.
  apply (Hn (d :: deps)).
  - unfold od_values. set_solver.
  - set_solver.
Qed.

Lemma sync_kinds_touches names deps_by_kind :
  (∀ g, g ∈ od_values deps_by_kind → ∀ x, x ∈ g → x ∈ names) →
  touches_only names (sync_kinds sync_iters deps_by_kind).
Proof.
  intros Hn iters r iters' Hf x Hx. unfold sync_kinds in Hf.
  destruct (bool_decide _); last by injection Hf as _ <-.
  unfold mbind, M_bind, iters_update in Hf.
  destruct (key_iters (od_values deps_by_kind) [] iters) as [[sel|e] it1] eqn:E.
  - destruct (key_iters_reads _ _ _ _ _ E) as [-> Hsel].
    injection Hf as _ <-. apply iters_update_other.
    intros Hin. apply sync_keys in Hin.
    destruct (Hsel sel eq_refl x Hin) as [Hacc|(g & Hg & Hh)];
      first by apply elem_of_nil in Hacc.
    apply Hx, (Hn g Hg). destruct g; simplify_eq/=. set_solver.
  - destruct (key_iters_reads _ _ _ _ _ E) as [-> _]. by injection Hf as _ <-.
Qed.

Lemma sync_lengths_touches names groups :
  (∀ g, g ∈ groups → ∀ x, x ∈ g → x ∈ names) →
  touches_only names (sync_lengths sync_iters groups).
Proof.
  induction groups as [|g groups IH]; intros Hn iters r iters' Hf x Hx;
    cbn [sync_lengths] in Hf.
  - by injection Hf as _ <-.
  - unfold mbind at 1, M_bind at 1 in Hf.
    assert (∀ r1 it1,
      (if bool_decide (1 < length g)
       then sel ← dep_iters g []; iters_update (sync_iters same_length sel)
       else mret tt) iters = (r1, it1) → it1 !! x = iters !! x) as Hstep.
    { intros r1 it1 Hs. destruct (bool_decide _);
        last by injection Hs as _ <-.
      unfold mbind, M_bind, iters_update in Hs.
      destruct (dep_iters g [] iters) as [[sel|e] it2] eqn:E;
        destruct (dep_iters_reads _ _ _ _ _ E) as [-> Hsel];
        injection Hs as _ <-; last done.
      apply iters_update_other. intros Hin. apply sync_keys in Hin.
      destruct (Hsel sel eq_refl x Hin) as [Hacc|Hg];
        first by apply elem_of_nil in Hacc.
      apply Hx, (Hn g); [set_solver | done]. }
    match type of Hf with
    | (let (_, _) := ?s iters in _) = _ =>
        destruct (s iters) as [[[]|e] it1] eqn:E
    end.
    + rewrite <- (Hstep _ _ eq_refl). eapply IH; [|exact Hf|done]. set_solver.
    + injection Hf as _ <-. by apply (Hstep _ _ eq_refl).
Qed.

(** X11. If the synchronisation primitive returns iterators for names it
    was given only, everything [iter] does before its loop changes the
    entries of [iters] for declared dependencies at most: the iterator of
    any other name is left as it was, also when that part fails. *)
Theorem prepare_touches_declared_dependencies_only ds n_per_iter :
  depends_on self = Some ds →
  touches_only ds (prepare fixed_length_chunks sync_iters self n_per_iter).
Proof.
  intros Hds iters r iters' Hp x Hx. unfold prepare, lift in Hp.
  unfold mbind at 1, M_bind at 1 in Hp.
  destruct (dependencies_by_kind self true) as [dbk|e] eqn:Ecl;
    last by injection Hp as _ <-.
  assert (∀ g, g ∈ od_values dbk → ∀ y, y ∈ g → y ∈ ds) as Hn.
  { destruct (dependencies_by_kind_Ok_loop _ _ _ _ Hds Ecl) as [kd Hloop].
    apply classify_loop_perm in Hloop. cbn [fst fmap list_fmap concat app] in Hloop.
    intros g Hg y Hy. rewrite <- Hloop. apply elem_of_concat. eauto. }
  unfold mbind at 1, M_bind at 1 in Hp.
  destruct (flow_control fixed_length_chunks dbk n_per_iter iters)
    as [[[]|e1] it1] eqn:E1;
    pose proof (flow_control_touches ds dbk n_per_iter Hn _ _ _ E1 x Hx) as H1;
    last by injection Hp as _ <-.
  unfold mbind at 1, M_bind at 1 in Hp.
  destruct (sync_kinds sync_iters dbk it1) as [[[]|e2] it2] eqn:E2;
    pose proof (sync_kinds_touches ds dbk Hn _ _ _ E2 x Hx) as H2;
    last (injection Hp as _ <-; congruence).
  unfold mbind at 1, M_bind at 1 in Hp.
  destruct (sync_lengths sync_iters (od_values dbk) it2) as [[[]|e3] it3] eqn:E3;
    pose proof (sync_lengths_touches ds _ Hn _ _ _ E3 x Hx) as H3;
    injection Hp as _ <-; congruence.
Qed.

End WithSync.

Lemma sync_lengths_ext s1 s2 groups :
  (∀ g sel, g ∈ groups → 1 < length g →
            s1 same_length sel = s2 same_length sel) →
  ∀ iters, sync_lengths s1 groups iters = sync_lengths s2 groups iters.
Proof.
  induction groups as [|g groups IH]; intros Hs iters; first done.
  cbn [sync_lengths]. unfold mbind at 1 3, M_bind at 1 3.
  assert ((if bool_decide (1 < length g)
           then sel ← dep_iters g []; iters_update (s1 same_length sel)
           else mret tt) iters
          = (if bool_decide (1 < length g)
             then sel ← dep_iters g []; iters_update (s2 same_length sel)
             else mret tt) iters) as ->.
  { destruct (bool_decide (1 < length g)) eqn:Eb; last done.
    apply bool_decide_eq_true in Eb. unfold mbind, M_bind.
    destruct (dep_iters g [] iters) as [[sel|e] it]; last done.
    rewrite (Hs g sel); [done | set_solver | done]. }
  match goal with
  | |- (let (_, _) := ?s iters in _) = _ =>
      destruct (s iters) as [[[]|e] it1]; last done
  end.
  apply IH. intros g' sel Hg'. apply Hs. set_solver.
Qed.

(** X12. [iter] calls the alignment by end time only when the
    dependencies classify into more than one kind, and the alignment by
    length only for a kind with more than one dependency: two
    synchronisation primitives that agree on the calls a classification
    needs give the same iterators. *)
Theorem prepare_calls_only_needed_alignment
    s1 s2 deps_by_kind n_per_iter iters :
  dependencies_by_kind self true = Ok deps_by_kind →
  (∀ f sel, calls deps_by_kind f → s1 f sel = s2 f sel) →
  prepare fixed_length_chunks s1 self n_per_iter iters
  = prepare fixed_length_chunks s2 self n_per_iter iters.
Proof.
  intros Hok Hs. unfold prepare, lift. rewrite Hok.
  unfold mbind at 1 5, M_bind at 1 5.
  unfold mbind at 1 4, M_bind at 1 4.
  destruct (flow_control fixed_length_chunks deps_by_kind n_per_iter iters)
    as [[[]|e1] it1]; last done.
  assert (sync_kinds s1 deps_by_kind it1 = sync_kinds s2 deps_by_kind it1)
    as Hk.
  { unfold sync_kinds. destruct (bool_decide _) eqn:Eb; last done.
    apply bool_decide_eq_true in Eb. unfold mbind, M_bind.
    destruct (key_iters _ [] it1) as [[sel|e] it]; last done.
    by rewrite (Hs same_stop_endtime sel Eb). }
  unfold mbind at 1 3, M_bind at 1 3. rewrite Hk.
  destruct (sync_kinds s2 deps_by_kind it1) as [[[]|e2] it2]; last done.
  unfold mbind, M_bind.
  rewrite (sync_lengths_ext s1 s2 (od_values deps_by_kind)); first done.
  intros g sel Hg Hlen. apply Hs. cbn [calls].
  apply Exists_exists. eauto.
Qed.

End AlignmentExtras.

(** ** A dependency without an iterator *)

Section MissingIterator.

Context {ftype chunk R handle : Type}.
Variable fixed_length_chunks : list chunk → Z → list chunk.
Variable sync_iters : sync_fn → odict (list chunk) → odict (list chunk).
Hypothesis sync_keys : ∀ f sel x, x ∈ (sync_iters f sel).*1 → x ∈ sel.*1.
Variable self : @StraxPlugin ftype.
Variable compute : odict chunk → res R.
Variable executor : option (@Executor chunk R handle).

#[local] Existing Instance M_ret.
#[local] Existing Instance M_bind.

Implicit Types (iters : gmap string (list chunk)).

(** An update with iterators for present names adds and removes no
    entry. *)
Lemma iters_update_keeps_missing (new : odict (list chunk)) : ∀ iters,
  (∀ x, x ∈ new.*1 → is_Some (iters !! x)) →
  ∀ x, foldl (λ acc kv, <[kv.1 := kv.2]> acc) iters new !! x = None
       ↔ iters !! x = None.
Proof.
  induction new as [|[k v] new IH]; intros iters Hnew x; first done.
  cbn [foldl fst snd]. rewrite IH.
  - destruct (decide (x = k)) as [->|Hne].
    + rewrite lookup_insert_eq.
      destruct (Hnew k) as [it Hit]; first set_solver.
      rewrite Hit. naive_solver.
    + by rewrite lookup_insert_ne.
  - intros y Hy. destruct (decide (y = k)) as [->|Hne].
    + rewrite lookup_insert_eq. eauto.
    + rewrite lookup_insert_ne by done. apply Hnew. set_solver.
Qed.

Lemma key_iters_outcome groups : ∀ (acc : odict (list chunk)) iters r iters',
  Forall (λ g, g ≠ []) groups →
  key_iters groups acc iters = (r, iters') →
  iters' = iters ∧
  match r with
  | Ok sel =>
      (∀ x, x ∈ sel.*1 → x ∈ acc.*1 ∨ is_Some (iters !! x)) ∧
      Forall (λ g, ∃ d0, head g = Some d0 ∧ is_Some (iters !! d0)) groups
  | Raise e => ∃ d, d ∈ concat groups ∧ iters !! d = None ∧ e = KeyError d
  end.
Proof.
  induction groups as [|g groups IH]; intros acc iters r iters' Hne Hk;
    cbn [key_iters] in Hk.
  - injection Hk as <- <-. split; first done. split; [eauto | constructor].
  - apply Forall_cons in Hne as [Hg Hne].
    destruct g as [|d0 g]; first done.
    unfold mbind, M_bind, lift, iters_getitem, getitem in Hk.
    cbn [first_of] in Hk.
    destruct (iters !! d0) as [it|] eqn:Hit; last first.
    { injection Hk as <- <-. split; first done.
      exists d0. split_and!; [set_solver | done | done]. }
    destruct (IH _ _ _ _ Hne Hk) as [-> Hout]. split; first done.
    destruct r as [sel|e].
    + destruct Hout as [Hsel Hall]. split.
      * intros x Hx. destruct (Hsel x Hx) as [Hacc|?]; last by right.
        apply od_set_keys in Hacc as [->|Hacc]; [right; eauto | by left].
      * constructor; last done. exists d0. split; [done | eauto].
    + destruct Hout as (d & Hd & Hnone & ->).
      exists d. split_and!; try done. cbn [concat]. set_solver.
Qed.

Lemma dep_iters_outcome deps : ∀ (acc : odict (list chunk)) iters r iters',
  dep_iters deps acc iters = (r, iters') →
  iters' = iters ∧
  match r with
  | Ok sel =>
      (∀ x, x ∈ sel.*1 → x ∈ acc.*1 ∨ is_Some (iters !! x)) ∧
      Forall (λ x, is_Some (iters !! x)) deps
  | Raise e => ∃ d, d ∈ deps ∧ iters !! d = None ∧ e = KeyError d
  end.
Proof.
  induction deps as [|d0 deps IH]; intros acc iters r iters' Hk;
    cbn [dep_iters] in Hk.
  - injection Hk as <- <-. split; first done. split; [eauto | constructor].
  - unfold mbind, M_bind, iters_getitem, getitem in Hk.
    destruct (iters !! d0) as [it|] eqn:Hit; last first.
    { injection Hk as <- <-. split; first done.
      exists d0. split_and!; [set_solver | done | done]. }
    destruct (IH _ _ _ _ Hk) as [-> Hout]. split; first done.
    destruct r as [sel|e].
    + destruct Hout as [Hsel Hall]. split.
      * intros x Hx. destruct (Hsel x Hx) as [Hacc|?]; last by right.
        apply od_set_keys in Hacc as [->|Hacc]; [right; eauto | by left].
      * constructor; [eauto | done].
    + destruct Hout as (d & Hd & Hnone & ->).
      exists d. split_and!; try done. set_solver.
Qed.

Lemma flow_control_outcome deps_by_kind n_per_iter iters r iters' :
  Forall (λ g, g ≠ []) (od_values deps_by_kind) →
  flow_control fixed_length_chunks deps_by_kind n_per_iter iters
    = (r, iters') →
  (∀ x, iters' !! x = None ↔ iters !! x = None) ∧
  ∀ e, r = Raise e →
       ∃ d, d ∈ concat (od_values deps_by_kind) ∧ iters !! d = None ∧
            e = KeyError d.
Proof.
  intros Hne Hf. unfold flow_control in Hf.
  destruct n_per_iter as [n|]; last by injection Hf as <- <-.
  destruct deps_by_kind as [|[k deps] rest]; first by injection Hf as <- <-.
  cbn [od_values fmap list_fmap snd] in Hne.
  apply Forall_cons in Hne as [Hg _].
  destruct deps as [|d deps]; first done.
  unfold mbind, M_bind, lift, iters_getitem, iters_setitem, getitem in Hf.
  cbn [first_of] in Hf.
  destruct (iters !! d) as [it|] eqn:Hit; injection Hf as <- <-.
  - split; last done. intros x. destruct (decide (x = d)) as [->|Hx].
    + rewrite lookup_insert_eq, Hit. naive_solver.
    + by rewrite lookup_insert_ne.
  - split; first done. intros e [= <-]. exists d.
    split_and!; try done. cbn [od_values fmap list_fmap snd concat].
    set_solver.
Qed.

Lemma sync_kinds_outcome deps_by_kind iters r iters' :
  Forall (λ g, g ≠ []) (od_values deps_by_kind) →
  sync_kinds sync_iters deps_by_kind iters = (r, iters') →
  (∀ x, iters' !! x = None ↔ iters !! x = None) ∧
  match r with
  | Ok _ =>
      1 < length deps_by_kind →
      Forall (λ g, ∃ d0, head g = Some d0 ∧ is_Some (iters !! d0))
             (od_values deps_by_kind)
  | Raise e =>
      ∃ d, d ∈ concat (od_values deps_by_kind) ∧ iters !! d = None ∧
           e = KeyError d
  end.
Proof.
  intros Hne Hs. unfold sync_kinds in Hs.
  destruct (bool_decide (1 < length deps_by_kind)) eqn:Eb.
  - unfold mbind, M_bind, iters_update in Hs.
    destruct (key_iters (od_values deps_by_kind) [] iters)
      as [[sel|e] it1] eqn:E;
      destruct (key_iters_outcome _ _ _ _ _ Hne E) as [-> Hout];
      injection Hs as <- <-; last done.
    destruct Hout as [Hsel Hall]. split; last done.
    apply iters_update_keeps_missing. intros x Hx. apply sync_keys in Hx.
    destruct (Hsel x Hx) as [Hacc|?]; [by apply elem_of_nil in Hacc | done].
  - injection Hs as <- <-. split; first done.
    apply bool_decide_eq_false in Eb. by intros ?.
Qed.

Lemma sync_lengths_outcome groups : ∀ iters r iters',
  sync_lengths sync_iters groups iters = (r, iters') →
  (∀ x, iters' !! x = None ↔ iters !! x = None) ∧
  match r with
  | Ok _ =>
      Forall (λ g, 1 < length g → Forall (λ x, is_Some (iters !! x)) g)
             groups
  | Raise e => ∃ d, d ∈ concat groups ∧ iters !! d = None ∧ e = KeyError d
  end.
Proof.
  induction groups as [|g groups IH]; intros iters r iters' Hs;
    cbn [sync_lengths] in Hs.
  - injection Hs as <- <-. split; [done | constructor].
  - unfold mbind at 1, M_bind at 1 in Hs.
    assert (∀ r1 it1,
      (if bool_decide (1 < length g)
       then sel ← dep_iters g []; iters_update (sync_iters same_length sel)
       else mret tt) iters = (r1, it1) →
      (∀ x, it1 !! x = None ↔ iters !! x = None) ∧
      match r1 with
      | Ok _ => 1 < length g → Forall (λ x, is_Some (iters !! x)) g
      | Raise e => ∃ d, d ∈ g ∧ iters !! d = None ∧ e = KeyError d
      end) as Hstep.
    { intros r1 it1 Hs1. destruct (bool_decide (1 < length g)) eqn:Eb.
      - unfold mbind, M_bind, iters_update in Hs1.
        destruct (dep_iters g [] iters) as [[sel|e] it2] eqn:E;
          destruct (dep_iters_outcome _ _ _ _ _ E) as [-> Hout];
          injection Hs1 as <- <-; last done.
        destruct Hout as [Hsel Hall]. split; last done.
        apply iters_update_keeps_missing. intros x Hx. apply sync_keys in Hx.
        destruct (Hsel x Hx) as [Hacc|?];
          [by apply elem_of_nil in Hacc | done].
      - injection Hs1 as <- <-. split; first done.
        apply bool_decide_eq_false in Eb. by intros ?. }
    match type of Hs with
    | (let (_, _) := ?s iters in _) = _ =>
        destruct (s iters) as [[[]|e] it1] eqn:E
    end.
    + destruct (Hstep _ _ eq_refl) as [Hdom Hg].
      destruct (IH _ _ _ Hs) as [Hdom' Hout]. split.
      * intros x. by rewrite Hdom', Hdom.
      * destruct r as [[]|e'].
        -- constructor; first done.
           eapply Forall_impl; first exact Hout.
           intros g' Hg' Hlen. eapply Forall_impl; first exact (Hg' Hlen).
           intros x Hx. apply not_eq_None_Some.
           apply not_eq_None_Some in Hx. by rewrite <- Hdom.
        -- destruct Hout as (d & Hd & Hnone & ->). exists d.
           split_and!; [cbn [concat]; set_solver | by apply Hdom | done].
    + injection Hs as <- <-.
      destruct (Hstep _ _ eq_refl) as [Hdom (d & Hd & Hnone & ->)].
      split; first done. exists d.
      split_and!; [cbn [concat]; set_solver | done | done].
Qed.

Lemma classified_groups_nonempty ds m :
  depends_on self = Some ds → dependencies_by_kind self true = Ok m →
  Forall (λ g, g ≠ []) (od_values m).
Proof.
  intros Hds Hok.
  pose proof (dependencies_by_kind_Ok_resolved _ _ _ Hds Hok) as Hr.
  rewrite (dependencies_by_kind_spec _ _ Hds Hr) in Hok.
  destruct (first_lacking self ds) eqn:E; first done. injection Hok as <-.
  apply Forall_forall. intros g Hg. unfold od_values, buckets in Hg.
  apply list_elem_of_fmap in Hg as ([k g'] & -> & Hg).
  apply list_elem_of_fmap in Hg as (k' & [= -> ->] & Hk).
  by destruct (bucket_of_head self ds k' Hk) as (d0 & rest & -> & _).
Qed.

(** Everything before the loop fails only with a KeyError for a
    dependency without an iterator; when it succeeds, it has read the
    iterator of every group's first dependency if there are several
    groups, and of every member of a group of several. *)
Lemma prepare_outcome ds deps_by_kind n_per_iter iters r iters' :
  depends_on self = Some ds →
  dependencies_by_kind self true = Ok deps_by_kind →
  prepare fixed_length_chunks sync_iters self n_per_iter iters
    = (r, iters') →
  (∀ x, iters' !! x = None ↔ iters !! x = None) ∧
  match r with
  | Ok ds' =>
      ds' = ds ∧
      (1 < length deps_by_kind →
       Forall (λ g, ∃ d0, head g = Some d0 ∧ is_Some (iters !! d0))
              (od_values deps_by_kind)) ∧
      Forall (λ g, 1 < length g → Forall (λ x, is_Some (iters !! x)) g)
             (od_values deps_by_kind)
  | Raise e =>
      ∃ d, d ∈ concat (od_values deps_by_kind) ∧ iters !! d = None ∧
           e = KeyError d
  end.
Proof.
  intros Hds Hok Hp.
  pose proof (classified_groups_nonempty _ _ Hds Hok) as Hne.
  assert (∀ (it1 it2 : gmap string (list chunk)) (x : string),
            (∀ y, it2 !! y = None ↔ it1 !! y = None) →
            is_Some (it2 !! x) → is_Some (it1 !! x)) as Hsome.
  { intros it1 it2 x Hdom Hx. apply not_eq_None_Some.
    apply not_eq_None_Some in Hx. by rewrite <- Hdom. }
  unfold prepare, lift in Hp. unfold mbind at 1, M_bind at 1 in Hp.
  rewrite Hok in Hp. unfold mbind at 1, M_bind at 1 in Hp.
  destruct (flow_control fixed_length_chunks deps_by_kind n_per_iter iters)
    as [[[]|e1] it1] eqn:E1;
    destruct (flow_control_outcome _ _ _ _ _ Hne E1) as [Hd1 Hr1];
    last first.
  { injection Hp as <- <-. split; first done. by apply Hr1. }
  unfold mbind at 1, M_bind at 1 in Hp.
  destruct (sync_kinds sync_iters deps_by_kind it1) as [[[]|e2] it2] eqn:E2;
    destruct (sync_kinds_outcome _ _ _ _ Hne E2) as [Hd2 Hr2];
    last first.
  { injection Hp as <- <-. split; first (intros x; by rewrite Hd2, Hd1).
    destruct Hr2 as (d & Hd & Hnone & ->). exists d.
    split_and!; [done | by apply Hd1 | done]. }
  unfold mbind at 1, M_bind at 1 in Hp.
  destruct (sync_lengths sync_iters (od_values deps_by_kind) it2)
    as [[[]|e3] it3] eqn:E3;
    destruct (sync_lengths_outcome _ _ _ _ E3) as [Hd3 Hr3];
    unfold getattr_depends_on in Hp; rewrite ?Hds in Hp;
    injection Hp as <- <-;
    (split; first (intros x; by rewrite Hd3, Hd2, Hd1)).
  - split_and!; first done.
    + intros Hlen. eapply Forall_impl; first exact (Hr2 Hlen).
      intros g (d0 & Hh & Hx). exists d0. split; first done.
      by eapply Hsome.
    + eapply Forall_impl; first exact Hr3.
      intros g Hg Hlen. eapply Forall_impl; first exact (Hg Hlen).
      intros x Hx. eapply Hsome; first exact Hd1.
      by eapply Hsome.
  - destruct Hr3 as (d & Hd & Hnone & ->). exists d.
    split_and!; [done | by apply Hd1, Hd2 | done].
Qed.

(** X6. When [iters] has no entry for a declared dependency (of a plugin
    whose dependencies classify, with a synchronisation primitive that
    returns iterators for the names it was given only), [iter] raises
    [KeyError] for a declared dependency without an iterator, and yields
    nothing before: the failure comes when the iterators are collected
    for rechunking or alignment, or, for a plugin with a single
    dependency and no bound, when the first batch is assembled. *)
Theorem iter_raises_KeyError_for_missing_iterator
    ds deps_by_kind d n_per_iter iters fuel :
  depends_on self = Some ds →
  dependencies_by_kind self true = Ok deps_by_kind →
  d ∈ ds → iters !! d = None →
  let out := iter fixed_length_chunks sync_iters self compute iters
                  n_per_iter executor (S fuel) in
  yielded out = [] ∧
  ∃ d', d' ∈ ds ∧ iters !! d' = None ∧ ended out = Raised (KeyError d').
Proof.
  intros Hds Hok Hd Hnone out. unfold out, iter.
  assert (concat (od_values deps_by_kind) ≡ₚ ds) as Hperm.
  { destruct (dependencies_by_kind_Ok_loop _ _ _ _ Hds Hok) as [kd Hloop].
    apply classify_loop_perm in Hloop. by rewrite Hloop. }
  destruct (prepare fixed_length_chunks sync_iters self n_per_iter iters)
    as [[ds'|e] iters'] eqn:Ep;
    destruct (prepare_outcome _ _ _ _ _ _ Hds Hok Ep) as [Hdom Hout].
  - destruct Hout as (-> & Hheads & Hgroups).
    assert (d ∈ concat (od_values deps_by_kind)) as Hin by by rewrite Hperm.
    apply elem_of_concat in Hin as (g & Hg & Hdg).
    rewrite Forall_forall in Hgroups.
    assert (g = [d]) as ->.
    { destruct g as [|x [|y g]].
      - by apply elem_of_nil in Hdg.
      - by apply list_elem_of_singleton in Hdg as ->.
      - exfalso. assert (is_Some (iters !! d)) as [it Hit].
        { pose proof (Hgroups _ Hg ltac:(simpl; lia)) as Hall.
          rewrite Forall_forall in Hall. by apply Hall. }
        congruence. }
    assert (deps_by_kind.*2 = [[d]]) as Hone.
    { destruct deps_by_kind as [|[k1 g1] [|[k2 g2] rest]].
      - by apply elem_of_nil in Hg.
      - cbn [od_values fmap list_fmap snd] in Hg |- *.
        by apply list_elem_of_singleton in Hg as ->.
      - exfalso. assert (is_Some (iters !! d)) as [it Hit].
        { pose proof (Hheads ltac:(simpl; lia)) as Hall.
          rewrite Forall_forall in Hall.
          destruct (Hall _ Hg) as (d0 & [= <-] & Hx). done. }
        congruence. }
    unfold od_values in Hperm. rewrite Hone in Hperm.
    cbn [concat app] in Hperm. symmetry in Hperm.
    apply Permutation_singleton_r in Hperm as ->.
    cbn [pull_loop next_batch].
    assert (iters' !! d = None) as -> by by apply Hdom.
    split; first done. exists d. split_and!; [set_solver | done | done].
  - destruct Hout as (d' & Hd' & Hnone' & ->).
    split; first done. exists d'. split_and!; try done. by rewrite <- Hperm.
Qed.

End MissingIterator.

(** ** LoopPlugin.compute, at its edges *)

Section LoopExtras.

Context {ftype V : Type}.
Variable zero : ftype → V.
Variable coerce : ftype → V → res V.
Variable merge_arrs : list (list (odict V)) → list (odict V).
Variable split_by_containment :
  list (odict V) → list (odict V) → list (list (odict V)).
Variable self : @StraxPlugin ftype.

Implicit Types (dt : list (string * ftype)) (row r : odict V)
  (results base : list (odict V))
  (compute_loop : odict V → odict (list (odict V)) → res (odict V)).

Lemma merge_kinds_get_other kwargs deps_by_kind : ∀ acc things_by_kind,
  merge_kinds merge_arrs kwargs deps_by_kind acc = Ok things_by_kind →
  ∀ k, k ∉ od_keys deps_by_kind → od_get k things_by_kind = od_get k acc.
Proof.
  induction deps_by_kind as [|[k' deps] m IH];
    intros acc tbk Hm k Hk; cbn [merge_kinds] in Hm.
  - by injection Hm as <-.
  - destruct (kwargs_of kwargs deps) as [arrs|]; last done.
    cbn [mbind res_bind] in Hm. unfold od_keys in *.
    rewrite (IH _ _ Hm k) by set_solver.
    rewrite od_get_set, decide_False; [done | set_solver].
Qed.

(** X13. When [loop_over] names a kind that no group of the
    classification has, [compute] raises [KeyError] for that kind: line
    168 looks the loop kind up among the merged kinds. *)
Theorem loop_compute_KeyError_for_foreign_loop_kind
    compute_loop kwargs lo deps_by_kind things_by_kind :
  loop_over self = Some lo →
  dependencies_by_kind self true = Ok deps_by_kind →
  merge_kinds merge_arrs kwargs deps_by_kind [] = Ok things_by_kind →
  lo ∉ od_keys deps_by_kind →
  LoopPlugin_compute zero coerce merge_arrs split_by_containment self
                     compute_loop kwargs = Raise (KeyError lo).
Proof.
  intros Hlo Hdbk Hm Hk. unfold LoopPlugin_compute, loop_kind, od_getitem.
  rewrite Hlo. cbn [mbind res_bind]. rewrite Hdbk. cbn [mbind res_bind].
  rewrite Hm. cbn [mbind res_bind].
  by rewrite (merge_kinds_get_other _ _ _ _ Hm lo Hk).
Qed.

(** X14. When the merged data of the loop kind has no row, [compute]
    returns the empty array and the callback is not consulted: the result
    is the same for every callback. *)
Theorem loop_compute_empty_base
    compute_loop kwargs lo deps_by_kind things_by_kind dt :
  loop_kind self = Ok lo →
  dependencies_by_kind self true = Ok deps_by_kind →
  merge_kinds merge_arrs kwargs deps_by_kind [] = Ok things_by_kind →
  od_get lo things_by_kind = Some [] →
  plugin_dtype self = Some dt →
  LoopPlugin_compute zero coerce merge_arrs split_by_containment self
                     compute_loop kwargs = Ok [].
Proof.
  intros Hlo Hdbk Hm Hbase Hdt.
  unfold LoopPlugin_compute, od_getitem, getattr_dtype.
  rewrite Hlo, Hdbk. cbn [mbind res_bind]. rewrite Hm. cbn [mbind res_bind].
  rewrite Hbase. cbn [mbind res_bind]. by rewrite Hdt.
Qed.

Lemma row_kwargs_from_split lo base things_by_kind deps_by_kind kwargs i :
  merge_kinds merge_arrs kwargs deps_by_kind [] = Ok things_by_kind →
  (∀ things, length (split_by_containment things base) = length base) →
  i < length base →
  ∃ sub, row_kwargs lo
           (split_kinds split_by_containment lo base things_by_kind)
           i (od_keys deps_by_kind) [] = Ok sub.
Proof.
  intros Hm Hsplit Hi.
  apply (row_kwargs_total merge_arrs split_by_containment).
  intros k Hk Hne. rewrite od_get_split_kinds by done.
  destruct (merge_kinds_keys merge_arrs _ _ _ _ Hm k (or_introl Hk))
    as [things ->].
  eexists. split; first done. rewrite Hsplit. lia.
Qed.

(** X15. With the callback of LoopPlugin itself, which raises, [compute]
    raises that [ValueError] as soon as the loop kind has a row: a
    LoopPlugin that does not override [compute_loop] computes nothing. *)
Theorem loop_compute_default_callback_raises
    kwargs lo deps_by_kind things_by_kind base dt :
  loop_kind self = Ok lo →
  dependencies_by_kind self true = Ok deps_by_kind →
  merge_kinds merge_arrs kwargs deps_by_kind [] = Ok things_by_kind →
  od_get lo things_by_kind = Some base →
  plugin_dtype self = Some dt →
  (∀ things, length (split_by_containment things base) = length base) →
  base ≠ [] →
  LoopPlugin_compute zero coerce merge_arrs split_by_containment self
                     LoopPlugin_compute_loop kwargs
  = Raise (ValueError EmptyString).
Proof.
  intros Hlo Hdbk Hm Hbase Hdt Hsplit Hne.
  unfold LoopPlugin_compute, od_getitem, getattr_dtype.
  rewrite Hlo, Hdbk. cbn [mbind res_bind]. rewrite Hm. cbn [mbind res_bind].
  rewrite Hbase. cbn [mbind res_bind]. rewrite Hdt. cbn [mbind res_bind].
  destruct base as [|b base]; first done.
  destruct (row_kwargs_from_split lo (b :: base) things_by_kind deps_by_kind
              kwargs 0 Hm Hsplit) as [sub Hsub]; first (simpl; lia).
  cbn [length seq fill_rows]. unfold index at 1. cbn [lookup list_lookup].
  cbn [mbind res_bind]. rewrite Hsub. done.
Qed.

Lemma write_row_Ok dt i r : ∀ results results',
  write_row coerce dt i r results = Ok results' →
  Forall (storable coerce dt) r.
Proof.
  induction r as [|[k v] r IH]; intros results results' Hw;
    first by constructor.
  cbn [write_row] in Hw. unfold setfield in Hw.
  destruct (index results i) as [row|]; last done.
  cbn [mbind res_bind] in Hw.
  destruct (od_get k dt) as [ty|] eqn:Ety; last done.
  destruct (coerce ty v) as [v'|] eqn:Ev; last done.
  cbn [mbind res_bind] in Hw. constructor; last by eapply IH.
  by exists ty, v'.
Qed.

Lemma fill_rows_Ok compute_loop dt lo base
    (split : odict (list (list (odict V)))) kinds idx : ∀ results results',
  fill_rows coerce compute_loop dt lo base split kinds idx results
    = Ok results' →
  ∀ i, i ∈ idx →
    ∃ b sub r, base !! i = Some b ∧
      row_kwargs lo split i kinds [] = Ok sub ∧
      compute_loop b sub = Ok r ∧ Forall (storable coerce dt) r.
Proof.
  induction idx as [|j idx IH]; intros results results' Hf i Hi;
    first by apply elem_of_nil in Hi.
  cbn [fill_rows] in Hf. unfold index in Hf.
  destruct (base !! j) as [b|] eqn:Eb; last done.
  cbn [mbind res_bind] in Hf.
  destruct (row_kwargs lo split j kinds []) as [sub|] eqn:Es; last done.
  cbn [mbind res_bind] in Hf.
  destruct (compute_loop b sub) as [r|] eqn:Er; last done.
  cbn [mbind res_bind] in Hf.
  destruct (write_row coerce dt j r results) as [results1|] eqn:Ew;
    last done.
  cbn [mbind res_bind] in Hf.
  apply elem_of_cons in Hi as [->|Hi]; last by eapply IH.
  exists b, sub, r. split_and!; try done. by eapply write_row_Ok.
Qed.

(** X16. [compute] returns an array only if, for every base row, the
    partition had a part for it, the callback returned a mapping, and
    every key of the mapping is a field of the output dtype whose value
    converts: an unknown field or a failing callback is never passed
    over. *)
Theorem loop_compute_returns_only_if_rows_storable
    compute_loop kwargs lo deps_by_kind things_by_kind base dt results :
  loop_kind self = Ok lo →
  dependencies_by_kind self true = Ok deps_by_kind →
  merge_kinds merge_arrs kwargs deps_by_kind [] = Ok things_by_kind →
  od_get lo things_by_kind = Some base →
  plugin_dtype self = Some dt →
  LoopPlugin_compute zero coerce merge_arrs split_by_containment self
                     compute_loop kwargs = Ok results →
  ∀ i b, base !! i = Some b →
    ∃ sub r,
      row_kwargs lo (split_kinds split_by_containment lo base things_by_kind)
                 i (od_keys deps_by_kind) [] = Ok sub ∧
      compute_loop b sub = Ok r ∧ Forall (storable coerce dt) r.
Proof.
  intros Hlo Hdbk Hm Hbase Hdt Hok i b Hb.
  unfold LoopPlugin_compute, od_getitem, getattr_dtype in Hok.
  rewrite Hlo, Hdbk in Hok. cbn [mbind res_bind] in Hok.
  rewrite Hm in Hok. cbn [mbind res_bind] in Hok.
  rewrite Hbase in Hok. cbn [mbind res_bind] in Hok.
  rewrite Hdt in Hok. cbn [mbind res_bind] in Hok.
  destruct (fill_rows_Ok _ _ _ _ _ _ _ _ _ Hok i)
    as (b' & sub & r & Hb' & Hsub & Hr & Hst).
  { apply elem_of_seq. apply lookup_lt_Some in Hb. lia. }
  assert (b' = b) as -> by congruence. eauto.
Qed.

End LoopExtras.

Section CallbackArguments.

Context {V : Type}.
Variable split_by_containment :
  list (odict V) → list (odict V) → list (list (odict V)).

Lemma row_kwargs_spec lo (split : odict (list (list (odict V)))) i kinds :
  ∀ acc sub,
  row_kwargs lo split i kinds acc = Ok sub →
  NoDup kinds → (∀ k, k ∈ kinds → k ∉ acc.*1) →
  ∃ new, sub = acc ++ new ∧ new.*1 = filter (λ k, k ≠ lo) kinds ∧
    Forall (λ kv, ∃ parts, od_get kv.1 split = Some parts ∧
                           parts !! i = Some kv.2) new.
Proof.
  induction kinds as [|k kinds IH]; intros acc sub Hr Hnd Hacc;
    cbn [row_kwargs] in Hr.
  - injection Hr as <-. exists []. by rewrite app_nil_r.
  - apply NoDup_cons in Hnd as [Hk Hnd].
    destruct (decide (k ≠ lo)) as [Hne|Heq].
    + unfold od_getitem, index in Hr.
      destruct (od_get k split) as [parts|] eqn:Ep; last done.
      cbn [mbind res_bind] in Hr.
      destruct (parts !! i) as [part|] eqn:Ei; last done.
      cbn [mbind res_bind] in Hr.
      rewrite od_set_fresh in Hr by set_solver.
      destruct (IH _ _ Hr Hnd) as (new & -> & Hkeys & Hall).
      { intros x Hx. rewrite fmap_app. set_solver. }
      exists ((k, part) :: new). split_and!.
      * by rewrite <- (assoc_L (++)).
      * rewrite filter_cons_True by done. cbn. by rewrite Hkeys.
      * constructor; last done. by exists parts.
    + destruct (IH _ _ Hr Hnd) as (new & -> & Hkeys & Hall);
        first set_solver.
      exists new. split_and!; try done.
      by rewrite filter_cons_False by done.
Qed.

(** X17. For base row [i] the callback is handed one keyword per kind
    other than the loop kind, in the order of the classification and
    never the loop kind itself; the value for a kind is the [i]-th part
    of the partition of that kind's merged data against the base. *)
Theorem callback_receives_other_kinds_only
    lo base (things_by_kind : odict (list (odict V))) kinds i sub :
  NoDup kinds →
  row_kwargs lo (split_kinds split_by_containment lo base things_by_kind)
             i kinds [] = Ok sub →
  sub.*1 = filter (λ k, k ≠ lo) kinds ∧ (lo ∉ sub.*1) ∧
  ∀ k part, (k, part) ∈ sub →
    ∃ things, od_get k things_by_kind = Some things ∧
              split_by_containment things base !! i = Some part.
Proof.
  intros Hnd Hr.
  destruct (row_kwargs_spec _ _ _ _ _ _ Hr Hnd) as (new & -> & Hkeys & Hall).
  { intros k _. apply not_elem_of_nil. }
  cbn [app]. split_and!; first done.
  - rewrite Hkeys, list_elem_of_filter. naive_solver.
  - intros k part Hin. rewrite Forall_forall in Hall.
    destruct (Hall _ Hin) as (parts & Hp & Hi). cbn [fst snd] in Hp, Hi.
    assert (k ≠ lo) as Hne.
    { assert (k ∈ new.*1) as Hk
        by (apply list_elem_of_fmap; by exists (k, part)).
      rewrite Hkeys in Hk. by apply list_elem_of_filter in Hk as [? _]. }
    rewrite od_get_split_kinds in Hp by done.
    destruct (od_get k things_by_kind) as [things|]; last done.
    injection Hp as <-. eauto.
Qed.

End CallbackArguments.

(** ** MergePlugin, at its edges *)

Section MergeExtras.

Context {ftype V handle : Type}.
Variable py_repr : string → string.
Variable unpack_dtype : list (string * ftype) → list (string * ftype).
Variable merge_arrs : list (list (odict V)) → list (odict V).
Variable fixed_length_chunks : list (list (odict V)) → Z → list (list (odict V)).
Variable sync_iters :
  sync_fn → odict (list (list (odict V))) → odict (list (list (odict V))).
Variable self : @StraxPlugin ftype.
Variable executor : option (@Executor (list (odict V)) (list (odict V)) handle).

(** X18. A MergePlugin whose [depends_on] is empty passes its
    constructor, but its [infer_dtype] raises the [ValueError] about
    multiple kinds, with an empty dictionary in the message: the test is
    for a number of kinds other than one. *)
Theorem merge_without_dependencies_fails_in_infer_dtype :
  depends_on self = Some [] →
  MergePlugin_init self = Ok tt ∧
  MergePlugin_infer_dtype py_repr unpack_dtype self
  = Raise (ValueError (multiple_kinds_text +:+ "{}")).
Proof.
  intros Hds. split.
  - unfold MergePlugin_init. by rewrite Hds.
  - unfold MergePlugin_infer_dtype, dependencies_by_kind, getattr_depends_on.
    by rewrite Hds.
Qed.

(** X19. [infer_dtype] keeps every field of every dependency and removes
    no duplicate: an entry that the unpacked dtypes of two dependencies
    share occurs twice in the inferred dtype. *)
Theorem merge_infer_dtype_keeps_duplicates
    ds dts k deps l1 dt1 l2 dt2 l3 x :
  depends_on self = Some ds →
  Forall2 (λ d dt, dependency_dtypes self !! d = Some dt) ds dts →
  dependencies_by_kind self true = Ok [(k, deps)] →
  dts = l1 ++ dt1 :: l2 ++ dt2 :: l3 →
  x ∈ unpack_dtype dt1 → x ∈ unpack_dtype dt2 →
  ∃ fields, MergePlugin_infer_dtype py_repr unpack_dtype self = Ok fields ∧
            (∀ dt y, dt ∈ dts → y ∈ unpack_dtype dt → y ∈ fields) ∧
            ¬ NoDup fields.
Proof.
  intros Hds Hdts Hok -> Hx1 Hx2.
  exists (concat (unpack_dtype <$> l1 ++ dt1 :: l2 ++ dt2 :: l3)).
  split_and!.
  - unfold MergePlugin_infer_dtype, getattr_depends_on.
    rewrite Hok, Hds. cbn [mbind res_bind length].
    rewrite bool_decide_eq_false_2 by naive_solver.
    rewrite (unpacked_Forall2 _ _ _ _ Hdts). cbn [mbind res_bind].
    by rewrite py_sum_concat.
  - intros dt y Hdt Hy. apply elem_of_concat. exists (unpack_dtype dt).
    split; last done. apply list_elem_of_fmap. eauto.
  - rewrite fmap_app, concat_app, fmap_cons. cbn [concat].
    rewrite fmap_app, concat_app, fmap_cons. cbn [concat].
    intros Hnd. apply NoDup_app in Hnd as (_ & _ & Hnd).
    apply NoDup_app in Hnd as (_ & Hdisj & _).
    apply (Hdisj x Hx1). set_solver.
Qed.

Lemma batch_at_spec {chunk : Type} ds (iters : gmap string (list chunk)) i :
  ∀ b, batch_at ds iters i = Some b →
  b.*1 = ds ∧
  Forall2 (λ d c, ∃ its, iters !! d = Some its ∧ its !! i = Some c) ds b.*2.
Proof.
  induction ds as [|d ds IH]; intros b Hb; cbn [batch_at] in Hb.
  - injection Hb as <-. by split.
  - destruct (iters !! d) as [its|] eqn:Eits; last done.
    cbn [mbind option_bind] in Hb.
    destruct (its !! i) as [c|] eqn:Ec; last done.
    cbn [mbind option_bind] in Hb.
    destruct (batch_at ds iters i) as [b'|]; last done.
    injection Hb as <-. destruct (IH b' eq_refl) as [Hk Hv].
    cbn [fmap list_fmap fst snd]. split; first by rewrite Hk.
    constructor; [by exists its | done].
Qed.

(** X20. Streaming a MergePlugin inline: the [i]-th output is
    [merge_arrs] of the [i]-th chunks of the dependencies, listed in the
    order of [depends_on]. *)
Theorem iter_merge_passes_chunks_in_declared_order
    iters n_per_iter ds aligned n fuel i :
  prepare fixed_length_chunks sync_iters self n_per_iter iters
    = (Ok ds, aligned) →
  NoDup ds →
  Forall (λ d, ∃ its, aligned !! d = Some its ∧ n ≤ length its) ds →
  Exists (λ d, ∃ its, aligned !! d = Some its ∧ length its = n) ds →
  ¬ (multiprocess self = true ∧ is_Some executor) →
  n < fuel → i < n →
  ∃ cs,
    Forall2 (λ d c, ∃ its, aligned !! d = Some its ∧ its !! i = Some c)
            ds cs ∧
    yielded (iter fixed_length_chunks sync_iters self
                  (MergePlugin_compute merge_arrs) iters n_per_iter
                  executor fuel) !! i
    = Some (inl (merge_arrs cs)).
Proof.
  intros Hp Hnd Hall Hex Hinl Hfuel Hi.
  rewrite (iter_prepared _ _ _ _ _ _ _ _ _ _ Hp).
  destruct (pull_loop_spec self (MergePlugin_compute merge_arrs) executor
              ds n aligned fuel) as [Hy Hl]; try done.
  assert (∀ b, emit self (MergePlugin_compute merge_arrs) executor b
               = Ok (inl (merge_arrs (od_values b)))) as Hemit.
  { intros b. unfold emit, MergePlugin_compute.
    destruct (multiprocess self) eqn:Emp, executor as [ex|] eqn:Eex;
      try done.
    exfalso. apply Hinl. split; [done | by eexists]. }
  destruct (emit_all_total (MergePlugin_compute merge_arrs)
              (emit self (MergePlugin_compute merge_arrs) executor)
              (batches ds aligned n)) as (xs & Hxs & Hf2).
  { intros b _. rewrite Hemit. by eexists. }
  rewrite Hxs in Hy. injection Hy as -> _.
  destruct (batches_lookup ds aligned n i Hl Hi) as (b & Hb & Hbi).
  destruct (Forall2_lookup_l _ _ _ _ _ Hf2 Hbi) as (x & Hx & Hbx).
  rewrite Hemit in Hbx. injection Hbx as <-.
  destruct (batch_at_spec _ _ _ _ Hb) as [_ Hcs].
  exists (od_values b). by split.
Qed.

End MergeExtras.

(** ** The loop kind *)

Section LoopKindExtras.

Context {ftype V handle : Type}.
Variable zero : ftype → V.
Variable coerce : ftype → V → res V.
Variable merge_arrs : list (list (odict V)) → list (odict V).
Variable split_by_containment :
  list (odict V) → list (odict V) → list (list (odict V)).
Variable fixed_length_chunks : list (list (odict V)) → Z → list (list (odict V)).
Variable sync_iters :
  sync_fn → odict (list (list (odict V))) → odict (list (list (odict V))).
Variable self : @StraxPlugin ftype.
Variable compute_loop : odict V → odict (list (odict V)) → res (odict V).
Variable executor : option (@Executor (list (odict V)) (list (odict V)) handle).

Lemma elem_of_bucket_of ds k x :
  x ∈ bucket_of self ds k ↔ x ∈ deps_of_kind self k ds.
Proof.
  unfold bucket_of, timed, untimed.
  rewrite elem_of_app, elem_of_reverse, !list_elem_of_filter.
  destruct (time_bearing self x); naive_solver.
Qed.

(** X21. Without a [loop_over] attribute the loop kind is the kind of
    the first declared dependency, and a returned classification always
    has a group for it, one that holds that dependency: the lookup of the
    loop kind at line 168 can then fail only for a [loop_over] that was
    set. *)
Theorem loop_kind_defaults_to_first_dependency_kind d ds k deps_by_kind :
  loop_over self = None → depends_on self = Some (d :: ds) →
  dependency_kinds self !! d = Some k →
  dependencies_by_kind self true = Ok deps_by_kind →
  loop_kind self = Ok k ∧
  ∃ deps, od_get k deps_by_kind = Some deps ∧ d ∈ deps.
Proof.
  intros Hlo Hds Hk Hok. split.
  - unfold loop_kind, getattr_depends_on, getitem. rewrite Hlo, Hds.
    cbn [mbind res_bind first_of]. by rewrite Hk.
  - pose proof (dependencies_by_kind_Ok_resolved _ _ _ Hds Hok) as Hr.
    rewrite (dependencies_by_kind_spec _ _ Hds Hr) in Hok.
    destruct (first_lacking self (d :: ds)); first done.
    injection Hok as <-. exists (bucket_of self (d :: ds) k). split.
    + apply buckets_get, elem_of_kinds_in_order. exists d. set_solver.
    + apply elem_of_bucket_of, elem_of_deps_of_kind. set_solver.
Qed.

(** X22. A LoopPlugin with an empty [depends_on] and no [loop_over]
    passes its constructor, but its stream raises [IndexError] at the
    first output: [compute] asks for the first dependency.  Nothing is
    yielded and no iterator is touched. *)
Theorem iter_loop_plugin_without_dependencies_raises_IndexError
    n_per_iter iters fuel :
  depends_on self = Some [] → loop_over self = None →
  multiprocess self = false →
  LoopPlugin_init self = Ok tt ∧
  iter fixed_length_chunks sync_iters self
       (LoopPlugin_compute zero coerce merge_arrs split_by_containment self
                           compute_loop)
       iters n_per_iter executor (S fuel)
  = {| yielded := []; ended := Raised IndexError; final_iters := iters |}.
Proof.
  intros Hds Hlo Hmp. split.
  - unfold LoopPlugin_init. by rewrite Hds.
  - unfold iter.
    rewrite (prepare_no_dependencies _ _ _ _ _ Hds),
      pull_loop_no_dependencies.
    unfold emit, LoopPlugin_compute, loop_kind, getattr_depends_on.
    by rewrite Hmp, Hlo, Hds.
Qed.

End LoopKindExtras.

(** ** Further worked examples *)

Import MoreExamples.

Lemma classify_raises_KeyError_at_first_unknown_witness :
  dependencies_by_kind unregistered_hits true = Raise (KeyError "hit_info").
Proof.
  apply (classify_raises_KeyError_at_first_unknown unregistered_hits true
           ["peak_basics"] "hit_info" ["peak_classification"]).
  - reflexivity.
  - repeat constructor; by eexists.
  - left. evaluated.
Defined.

Lemma classify_without_time_keeps_declaration_order_witness :
  dependencies_by_kind mixed_kinds false
  = Ok [("peaks", ["peak_classification"; "peak_positions"]);
        ("events", ["event_basics"])].
Proof.
  rewrite (classify_without_time_keeps_declaration_order mixed_kinds
             ["peak_classification"; "event_basics"; "peak_positions"]).
  - evaluated.
  - reflexivity.
  - repeat constructor; by eexists.
Defined.

Lemma classify_groups_partition_witness :
  concat (od_values [("peaks", ["peaks"; "peak_basics"; "peak_classification"])])
    ≡ₚ ["peak_basics"; "peak_classification"; "peaks"].
Proof.
  apply (classify_groups_partition peak_summary true
           ["peak_basics"; "peak_classification"; "peaks"]
           [("peaks", ["peaks"; "peak_basics"; "peak_classification"])]).
  - reflexivity.
  - evaluated.
Defined.

Lemma classify_groups_start_time_bearing_witness :
  ∃ d rest, ["peak_basics"] = d :: rest ∧ time_bearing event_info d.
Proof.
  apply (classify_groups_start_time_bearing event_info
           ["event_basics"; "peak_basics"]
           [("events", ["event_basics"]); ("peaks", ["peak_basics"])]
           "peaks" ["peak_basics"]).
  - reflexivity.
  - evaluated.
  - set_solver.
Defined.

Lemma pull_loop_drops_partial_batch_witness :
  ∃ iters',
    pull_loop classified_peaks ex_compute (Some ex_executor)
              ["peak_basics"; "peak_classification"] 1 exhausted_iters
    = {| yielded := []; ended := Returned; final_iters := iters' |} ∧
    iters' !! "peak_basics" = Some [].
Proof.
  destruct (pull_loop_drops_partial_batch classified_peaks ex_compute
              (Some ex_executor) ["peak_basics"] "peak_classification" []
              exhausted_iters 0) as (iters' & Hrun & Hadv).
  - repeat constructor; set_solver.
  - repeat constructor. eexists. split; [evaluated | simpl; lia].
  - evaluated.
  - exists iters'. split; first exact Hrun.
    rewrite (Hadv "peak_basics"). evaluated.
Defined.

(** The iterator of peak_classification is missing: [iter] raises
    KeyError for it when it collects the iterators to align by length,
    and the iterator of peak_basics keeps its chunk. *)
Lemma iter_raises_KeyError_for_missing_iterator_witness :
  let out := iter ex_fixed_length_chunks ex_sync_iters classified_peaks
                  ex_compute missing_iters None (Some ex_executor) 1 in
  yielded out = [] ∧ ended out = Raised (KeyError "peak_classification") ∧
  final_iters out = missing_iters.
Proof.
  destruct (iter_raises_KeyError_for_missing_iterator
              ex_fixed_length_chunks ex_sync_iters
              ltac:(by intros f sel x)
              classified_peaks ex_compute (Some ex_executor)
              ["peak_basics"; "peak_classification"]
              [("peaks", ["peak_basics"; "peak_classification"])]
              "peak_classification" None missing_iters 0)
    as (Hy & d' & Hd' & Hnone & Hend).
  - reflexivity.
  - evaluated.
  - set_solver.
  - evaluated.
  - split_and!; [exact Hy | | evaluated].
    rewrite Hend.
    apply elem_of_cons in Hd' as [->|Hd']; first by vm_compute in Hnone.
    apply list_elem_of_singleton in Hd' as ->. done.
Defined.

Lemma pull_loop_stops_at_failing_compute_witness :
  ended (pull_loop classified_peaks small_batches_only
                   (None : option (@Executor (list nat) nat unit))
                   ["peak_basics"; "peak_classification"] 3 growing_iters)
  = Raised (ValueError "too many rows").
Proof.
  destruct (pull_loop_stops_at_failing_compute classified_peaks
              small_batches_only
              (None : option (@Executor (list nat) nat unit))
              ["peak_basics"; "peak_classification"] 2 growing_iters 3
              [[("peak_basics", [1; 2]); ("peak_classification", [1; 2])]]
              [("peak_basics", [3; 4; 5]); ("peak_classification", [3; 4; 5])]
              [] (ValueError "too many rows"))
    as (rs & _ & _ & Hend).
  - repeat constructor; set_solver.
  - repeat constructor; eexists; (split; [evaluated | simpl; lia]).
  - apply Exists_cons_tl, Exists_cons_hd. eexists. split; [evaluated | done].
  - lia.
  - evaluated.
  - by intros [_ [? ?]].
  - repeat constructor. by eexists.
  - evaluated.
  - exact Hend.
Defined.

Lemma iter_without_dependencies_never_returns_witness :
  iter ex_fixed_length_chunks ex_sync_iters records_placeholder ex_compute
       peak_iters None (Some ex_executor) 7
  = {| yielded := replicate 7 (inl 0); ended := OutOfFuel;
       final_iters := peak_iters |}.
Proof.
  apply (iter_without_dependencies_never_returns ex_fixed_length_chunks
           ex_sync_iters records_placeholder ex_compute (Some ex_executor)).
  - reflexivity.
  - reflexivity.
Defined.

Lemma iter_placeholder_raises_NotImplementedError_witness :
  ended (iter ex_fixed_length_chunks ex_sync_iters records_placeholder
              (λ _, PlaceholderPlugin_compute "records") peak_iters None
              (Some ex_executor) 1)
  = Raised (NotImplementedError "No plugin registered that provides records").
Proof.
  rewrite (iter_placeholder_raises_NotImplementedError
             ex_fixed_length_chunks ex_sync_iters records_placeholder
             (λ _, PlaceholderPlugin_compute "records") (Some ex_executor)
             None peak_iters 0 "records"); reflexivity.
Defined.

Lemma iter_single_dependency_maps_compute_witness :
  let out := iter ex_fixed_length_chunks ex_sync_iters peak_counts
                  ex_compute peak_iters (Some 2%Z)
                  (None : option (@Executor (list nat) nat unit)) 4 in
  ended out = Returned ∧ final_iters out !! "peak_basics" = Some [] ∧
  length (yielded out) = 3.
Proof.
  destruct (iter_single_dependency_maps_compute ex_fixed_length_chunks
              ex_sync_iters peak_counts ex_compute
              (None : option (@Executor (list nat) nat unit))
              "peak_basics" "peaks" [[1; 2]; [3]; [4; 5]] (Some 2%Z)
              peak_iters 4) as (rs & Hrs & Hrun).
  - reflexivity.
  - evaluated.
  - vm_compute. exact I.
  - evaluated.
  - by intros [_ [? ?]].
  - intros c _. by eexists.
  - vm_compute. lia.
  - cbv zeta. rewrite Hrun. cbn [ended final_iters yielded].
    split_and!; [done | apply lookup_insert_eq |].
    rewrite length_fmap, <- (Forall2_length _ _ _ Hrs). evaluated.
Defined.

Lemma prepare_touches_declared_dependencies_only_witness :
  (prepare ex_fixed_length_chunks ex_sync_drop classified_peaks (Some 2%Z)
           more_iters).2 !! "bystander" = more_iters !! "bystander".
Proof.
  eapply (prepare_touches_declared_dependencies_only ex_fixed_length_chunks
            classified_peaks ex_sync_drop).
  - intros f sel x. unfold ex_sync_drop.
    rewrite <- list_fmap_compose. by intros Hx.
  - reflexivity.
  - apply surjective_pairing.
  - set_solver.
Defined.

Lemma prepare_calls_only_needed_alignment_witness :
  prepare ex_fixed_length_chunks ex_sync_iters classified_peaks None
          more_iters
  = prepare ex_fixed_length_chunks ex_sync_lengths_only classified_peaks
            None more_iters.
Proof.
  apply (prepare_calls_only_needed_alignment ex_fixed_length_chunks
           classified_peaks ex_sync_iters ex_sync_lengths_only
           [("peaks", ["peak_basics"; "peak_classification"])]).
  - evaluated.
  - intros [] sel Hcall; [simpl in Hcall; lia | reflexivity].
Defined.

Lemma loop_compute_KeyError_for_foreign_loop_kind_witness :
  LoopPlugin_compute (λ _, 0%Z) (λ _ v, Ok v) ex_merge_arrs
                     ex_split_by_containment event_info_over_hits
                     count_peaks ex_kwargs
  = Raise (KeyError "hits").
Proof.
  apply (loop_compute_KeyError_for_foreign_loop_kind
           (λ _, 0%Z) (λ _ v, Ok v) ex_merge_arrs ex_split_by_containment
           event_info_over_hits count_peaks ex_kwargs "hits"
           [("events", ["event_basics"]); ("peaks", ["peak_basics"])]
           [("events", ex_events); ("peaks", ex_peaks)]).
  - reflexivity.
  - evaluated.
  - evaluated.
  - vm_compute. set_solver.
Defined.

Lemma loop_compute_empty_base_witness :
  LoopPlugin_compute (λ _, 0%Z) (λ _ v, Ok v) ex_merge_arrs
                     ex_split_by_containment event_info
                     LoopPlugin_compute_loop ex_kwargs_no_events
  = Ok [].
Proof.
  apply (loop_compute_empty_base
           (λ _, 0%Z) (λ _ v, Ok v) ex_merge_arrs ex_split_by_containment
           event_info LoopPlugin_compute_loop ex_kwargs_no_events "events"
           [("events", ["event_basics"]); ("peaks", ["peak_basics"])]
           [("events", []); ("peaks", ex_peaks)]
           [("n_peaks", "<i4"); ("area_sum", "<f4")]).
  - evaluated.
  - evaluated.
  - evaluated.
  - evaluated.
  - reflexivity.
Defined.

Lemma loop_compute_default_callback_raises_witness :
  LoopPlugin_compute (λ _, 0%Z) (λ _ v, Ok v) ex_merge_arrs
                     ex_split_by_containment event_info
                     LoopPlugin_compute_loop ex_kwargs
  = Raise (ValueError EmptyString).
Proof.
  apply (loop_compute_default_callback_raises
           (λ _, 0%Z) (λ _ v, Ok v) ex_merge_arrs ex_split_by_containment
           event_info ex_kwargs "events"
           [("events", ["event_basics"]); ("peaks", ["peak_basics"])]
           [("events", ex_events); ("peaks", ex_peaks)]
           ex_events [("n_peaks", "<i4"); ("area_sum", "<f4")]).
  - evaluated.
  - evaluated.
  - evaluated.
  - evaluated.
  - reflexivity.
  - intros things. unfold ex_split_by_containment. by rewrite length_fmap.
  - discriminate.
Defined.

Lemma loop_compute_returns_only_if_rows_storable_witness :
  ∃ sub r,
    row_kwargs "events"
      (split_kinds ex_split_by_containment "events" ex_events
                   [("events", ex_events); ("peaks", ex_peaks)])
      0 ["events"; "peaks"] [] = Ok sub ∧
    count_peaks (interval 0 100) sub = Ok r ∧
    Forall (storable (λ _ v, Ok v) [("n_peaks", "<i4"); ("area_sum", "<f4")])
           r.
Proof.
  apply (loop_compute_returns_only_if_rows_storable
           (λ _, 0%Z) (λ _ v, Ok v) ex_merge_arrs ex_split_by_containment
           event_info count_peaks ex_kwargs "events"
           [("events", ["event_basics"]); ("peaks", ["peak_basics"])]
           [("events", ex_events); ("peaks", ex_peaks)]
           ex_events [("n_peaks", "<i4"); ("area_sum", "<f4")]
           [[("n_peaks", 2%Z); ("area_sum", 0%Z)];
            [("n_peaks", 1%Z); ("area_sum", 0%Z)]] ltac:(evaluated)
           ltac:(evaluated) ltac:(evaluated) ltac:(evaluated)
           ltac:(reflexivity) ltac:(evaluated) 0 (interval 0 100)).
  reflexivity.
Defined.

Lemma callback_receives_other_kinds_only_witness :
  [("peaks", [interval 10 11; interval 50 51])].*1
  = filter (λ k, k ≠ "events") ["events"; "peaks"].
Proof.
  apply (callback_receives_other_kinds_only ex_split_by_containment
           "events" ex_events [("events", ex_events); ("peaks", ex_peaks)]
           ["events"; "peaks"] 0
           [("peaks", [interval 10 11; interval 50 51])]).
  - repeat constructor; set_solver.
  - evaluated.
Defined.

Lemma merge_without_dependencies_fails_in_infer_dtype_witness :
  @MergePlugin_init string no_dependencies = Ok tt ∧
  MergePlugin_infer_dtype ex_repr ex_unpack_dtype no_dependencies
  = Raise (ValueError (multiple_kinds_text +:+ "{}")).
Proof.
  apply (merge_without_dependencies_fails_in_infer_dtype
           ex_repr ex_unpack_dtype no_dependencies).
  reflexivity.
Defined.

Lemma merge_infer_dtype_keeps_duplicates_witness :
  ∃ fields,
    MergePlugin_infer_dtype ex_repr ex_unpack_dtype peak_summary = Ok fields ∧
    (∀ dt y,
       dt ∈ [peak_basics_dtype; peak_classification_dtype; peak_basics_dtype] →
       y ∈ ex_unpack_dtype dt → y ∈ fields) ∧
    ¬ NoDup fields.
Proof.
  apply (merge_infer_dtype_keeps_duplicates ex_repr ex_unpack_dtype
           peak_summary ["peak_basics"; "peak_classification"; "peaks"]
           [peak_basics_dtype; peak_classification_dtype; peak_basics_dtype]
           "peaks" ["peaks"; "peak_basics"; "peak_classification"]
           [] peak_basics_dtype [peak_classification_dtype]
           peak_basics_dtype [] ("time", "<i8")).
  - reflexivity.
  - repeat constructor.
  - evaluated.
  - reflexivity.
  - unfold ex_unpack_dtype, peak_basics_dtype. set_solver.
  - unfold ex_unpack_dtype, peak_basics_dtype. set_solver.
Defined.

Lemma iter_merge_passes_chunks_in_declared_order_witness :
  ∃ cs,
    Forall2 (λ d c, ∃ its, array_iters !! d = Some its ∧ its !! 0 = Some c)
            ["peak_basics"; "peak_classification"] cs ∧
    yielded (iter ex_fixed_arrays ex_sync_arrays classified_peaks
                  (MergePlugin_compute ex_merge_arrs) array_iters None
                  (None : option (@Executor _ _ unit)) 2) !! 0
    = Some (inl (ex_merge_arrs cs)).
Proof.
  apply (iter_merge_passes_chunks_in_declared_order ex_merge_arrs
           ex_fixed_arrays ex_sync_arrays classified_peaks
           (None : option (@Executor _ _ unit)) array_iters None
           ["peak_basics"; "peak_classification"] array_iters 1 2 0).
  - evaluated.
  - repeat constructor; set_solver.
  - repeat constructor; eexists; (split; [evaluated | simpl; lia]).
  - apply Exists_cons_tl, Exists_cons_hd. eexists. split; [evaluated | done].
  - by intros [_ [? ?]].
  - lia.
  - lia.
Defined.

Lemma loop_kind_defaults_to_first_dependency_kind_witness :
  loop_kind event_info = Ok "events" ∧
  ∃ deps,
    od_get "events"
           [("events", ["event_basics"]); ("peaks", ["peak_basics"])]
    = Some deps ∧ "event_basics" ∈ deps.
Proof.
  apply (loop_kind_defaults_to_first_dependency_kind event_info
           "event_basics" ["peak_basics"] "events"
           [("events", ["event_basics"]); ("peaks", ["peak_basics"])]).
  - reflexivity.
  - reflexivity.
  - evaluated.
  - evaluated.
Defined.

Lemma iter_loop_plugin_without_dependencies_raises_IndexError_witness :
  ended (iter ex_fixed_arrays ex_sync_arrays no_dependencies
              (LoopPlugin_compute (λ _, 0%Z) (λ _ v, Ok v) ex_merge_arrs
                                  ex_split_by_containment no_dependencies
                                  count_peaks)
              array_iters None (None : option (@Executor _ _ unit)) 1)
  = Raised IndexError.
Proof.
  destruct (iter_loop_plugin_without_dependencies_raises_IndexError
              (λ _, 0%Z) (λ _ v, Ok v) ex_merge_arrs ex_split_by_containment
              ex_fixed_arrays ex_sync_arrays no_dependencies count_peaks
              (None : option (@Executor _ _ unit)) None array_iters 0)
    as [_ Hrun].
  - reflexivity.
  - reflexivity.
  - reflexivity.
  - exact (f_equal ended Hrun).
Defined.
